(** * The recursive tile layout engine of the window tiler (App.tsx)

    A shallow embedding of the layout tree, the bounds resolver
    ([computeBounds]), the hit tester ([findDeepestNodeAtPoint]), the snap
    resolver ([hitTestForPreview]) and the tree mutators
    ([insertIntoLayout], [removeWindowFromLayout]) of
    [window-tiler-challenge-starter-code/src/App.tsx], then of the state,
    the event handlers and the renderer ([nodeToElements]) of the component
    around them, followed by their properties.

    Modelling conventions.
    - Pixel quantities (viewport size, pointer position, bounds) are
      integers, [Z]: the viewport is [window.innerWidth/innerHeight], the
      pointer is [clientX/clientY], and [computeBounds] only ever produces
      [Math.floor] results and differences of integers from them.
    - A split's [ratio] is a rational, [Q]; [Math.floor (width * ratio)] is
      [Qfloor (inject_Z width * ratio)].  The only ratio the program ever
      stores is [0.5], for which the double arithmetic of the source is exact.
    - [makeId] reads the clock and the random number generator.  Both are
      modelled by an [IdSource]: an arbitrary sequence of draws and a
      position in it.  Nothing forces two draws to differ.
    - [deepClone] is a JSON round trip; on the values stored in a layout tree
      (strings, integers, [null], [0.5]) it is the identity on values.
    - [Map<NodeId, Bounds>] is a [gmap string Bounds]. *)

From Stdlib Require Import ZArith QArith Qround Qminmax Lia Lqa.
From stdpp Require Import gmap strings list pretty.

Close Scope Q_scope.
Open Scope Z_scope.

(** ** Data model *)

Definition NodeId := string.

Inductive Orientation := Vertical | Horizontal.

Inductive Side := SideLeft | SideRight | SideTop | SideBottom.

#[global] Instance Orientation_eq_dec : EqDecision Orientation.
Proof. solve_decision. Defined.

#[global] Instance Side_eq_dec : EqDecision Side.
Proof. solve_decision. Defined.

(** [LayoutNode = LayoutLeaf | LayoutSplit].  [windowId] is
    [number | null]; [first] and [second] are declared non-null. *)
Inductive LayoutNode :=
| LayoutLeaf (id : NodeId) (windowId : option Z)
| LayoutSplit (id : NodeId) (orientation : Orientation) (ratio : Q)
              (first second : LayoutNode).

Definition node_id (n : LayoutNode) : NodeId :=
  match n with
  | LayoutLeaf i _ => i
  | LayoutSplit i _ _ _ _ => i
  end.

Record Bounds := mkBounds { bx : Z; by_ : Z; bwidth : Z; bheight : Z }.

Record SnapPreview := mkPreview {
  px_ : Z; py_ : Z; pwidth : Z; pheight : Z;
  targetNodeId : option NodeId;
  pside : Side
}.

Definition SNAP_DISTANCE : Z := 50.

(** ** Identifier generation *)

Record IdSource := mkIdSource { draw : nat -> string; tick : nat }.

(** Computations that call [makeId] thread the source through. *)
Definition Gen (A : Type) : Type := IdSource -> A * IdSource.

Definition gret {A} (a : A) : Gen A := fun g => (a, g).

Definition gbind {A B} (c : Gen A) (k : A -> Gen B) : Gen B :=
  fun g => let (a, g') := c g in k a g'.

Notation "'let*' x ':=' c 'in' k" := (gbind c (fun x => k))
  (at level 10, x name, c at level 100, k at level 200).

(** [makeId prefix]: the prefix, an underscore, and the clock/random part. *)
Definition makeId (prefix : string) : Gen NodeId :=
  fun g => (prefix +:+ "_" +:+ draw g (tick g),
            mkIdSource (draw g) (S (tick g))).

Definition defaultLeaf : Gen LayoutNode :=
  let* i := makeId "leaf" in gret (LayoutLeaf i None).

Definition deepClone {A} (v : A) : A := v.

(** ** Tree mutator: insert *)

Definition orientationOf (side : Side) : Orientation :=
  match side with
  | SideLeft | SideRight => Vertical
  | SideTop | SideBottom => Horizontal
  end.

Definition newFirstIsWindow (side : Side) : bool :=
  match side with
  | SideLeft | SideTop => true
  | SideRight | SideBottom => false
  end.

Section Insert.
Variables (windowId : Z) (side : Side).

(** The source spells the same wrapping three times (target [null], target
    an occupied leaf, target a split): a new leaf for the window, a
    [deepClone] of the existing node, and a split around the two.  The new
    leaf's id is drawn first, then the split's; [deepClone] draws nothing,
    so its place among the three statements does not matter. *)
Definition wrapWithWindow (existing : LayoutNode) : Gen LayoutNode :=
  let* wid := makeId "leaf" in
  let winLeaf := LayoutLeaf wid (Some windowId) in
  let existingClone := deepClone existing in
  let first := if newFirstIsWindow side then winLeaf else existingClone in
  let second := if newFirstIsWindow side then existingClone else winLeaf in
  let* sid := makeId "split" in
  gret (LayoutSplit sid (orientationOf side) (1 # 2) first second).

(** [replaceNode] on a non-null node.  A node whose id is the target is
    replaced and not descended into; otherwise both children of a split are
    visited, first then second, and [??] keeps the old child where the
    recursive call gave null.  When neither child changed the source returns
    the very object [node] instead of a copy of it; the two are the same
    value. *)
Fixpoint replaceNode_node (node : LayoutNode) (targetId : NodeId)
  : Gen (option LayoutNode) :=
  if String.eqb (node_id node) targetId then
    match node with
    | LayoutLeaf i None => gret (Some (LayoutLeaf i (Some windowId)))
    | _ => let* n := wrapWithWindow node in gret (Some n)
    end
  else
    match node with
    | LayoutSplit i o r first second =>
        let* replacedFirst := replaceNode_node first targetId in
        let* replacedSecond := replaceNode_node second targetId in
        gret (Some (LayoutSplit i o r
                      (default first replacedFirst)
                      (default second replacedSecond)))
    | LayoutLeaf _ _ => gret (Some node)
    end.

Definition replaceNode (node : option LayoutNode) (targetId : NodeId)
  : Gen (option LayoutNode) :=
  match node with
  | None => gret None
  | Some n => replaceNode_node n targetId
  end.

(** The updater passed to [setRootNode]; the result is the next value of
    [rootNode]. *)
Definition insertIntoLayout (target : option NodeId)
           (prev : option LayoutNode) : Gen (option LayoutNode) :=
  match prev with
  | None =>
      let* empty := defaultLeaf in
      let* wid := makeId "leaf" in
      let winLeaf := LayoutLeaf wid (Some windowId) in
      let first := if newFirstIsWindow side then winLeaf else empty in
      let second := if newFirstIsWindow side then empty else winLeaf in
      let* sid := makeId "split" in
      gret (Some (LayoutSplit sid (orientationOf side) (1 # 2) first second))
  | Some p =>
      match target with
      | None => let* n := wrapWithWindow p in gret (Some n)
      | Some tid =>
          let* newRoot := replaceNode (Some p) tid in
          gret (Some (default p newRoot))
      end
  end.
End Insert.

(** ** Tree mutator: remove *)

(** [node.windowId === windowId]: never true of a [null] field. *)
Definition sameWindow (w : option Z) (windowId : Z) : bool :=
  match w with
  | Some v => Z.eqb v windowId
  | None => false
  end.

(** The inner [remove] on a non-null node; [null] is [None]. *)
Fixpoint remove_node (windowId : Z) (node : LayoutNode) : option LayoutNode :=
  match node with
  | LayoutLeaf i w => if sameWindow w windowId then None else Some node
  | LayoutSplit i o r first second =>
      let f := remove_node windowId first in
      let s := remove_node windowId second in
      match f, s with
      | None, None => None
      | None, Some s' => Some s'
      | Some f', None => Some f'
      | Some f', Some s' => Some (LayoutSplit i o r f' s')
      end
  end.

Definition remove (windowId : Z) (node : option LayoutNode)
  : option LayoutNode :=
  match node with
  | None => None
  | Some n => remove_node windowId n
  end.

(** The updater [prev => remove(prev)] passed to [setRootNode]. *)
Definition removeWindowFromLayout (windowId : Z) (prev : option LayoutNode)
  : option LayoutNode := remove windowId prev.

(** ** Bounds resolver *)

(** [Math.floor (n * ratio)], on the exact product.  The source floors the
    double nearest to the product; the two agree at ratio [0.5], the only
    ratio the program ever stores (there the product of an integer below
    2^53 is exact), and may differ by one at ratios that are not dyadic.
    The properties below rely on [floorMul] through its range
    ([0 <= floorMul n r <= n] for [0 <= r <= 1]) and its value at 1/2. *)
Definition floorMul (n : Z) (ratio : Q) : Z := Qfloor (inject_Z n * ratio).

Fixpoint computeBounds_node (node : LayoutNode) (x y width height : Z)
         (map : gmap NodeId Bounds) : gmap NodeId Bounds :=
  let map := <[node_id node := mkBounds x y width height]> map in
  match node with
  | LayoutLeaf _ _ => map
  | LayoutSplit _ Vertical ratio first second =>
      let firstW := floorMul width ratio in
      let secondW := width - firstW in
      let map := computeBounds_node first x y firstW height map in
      computeBounds_node second (x + firstW) y secondW height map
  | LayoutSplit _ Horizontal ratio first second =>
      let firstH := floorMul height ratio in
      let secondH := height - firstH in
      let map := computeBounds_node first x y width firstH map in
      computeBounds_node second x (y + firstH) width secondH map
  end.

Definition computeBounds (node : option LayoutNode) (x y width height : Z)
           (map : gmap NodeId Bounds) : gmap NodeId Bounds :=
  match node with
  | None => map
  | Some n => computeBounds_node n x y width height map
  end.

(** ** Hit tester *)

(** The guard [px < x || px > x + width || py < y || py > y + height]. *)
Definition outside (x y width height px py : Z) : bool :=
  (px <? x) || (px >? x + width) || (py <? y) || (py >? y + height).

Fixpoint findDeepestNodeAtPoint_node (node : LayoutNode)
         (x y width height px py : Z) : option LayoutNode :=
  if outside x y width height px py then None
  else
    match node with
    | LayoutLeaf _ _ => Some node
    | LayoutSplit _ Vertical ratio first second =>
        let firstW := floorMul width ratio in
        match findDeepestNodeAtPoint_node first x y firstW height px py with
        | Some childA => Some childA
        | None =>
            findDeepestNodeAtPoint_node second (x + firstW) y
              (width - firstW) height px py
        end
    | LayoutSplit _ Horizontal ratio first second =>
        let firstH := floorMul height ratio in
        match findDeepestNodeAtPoint_node first x y width firstH px py with
        | Some childA => Some childA
        | None =>
            findDeepestNodeAtPoint_node second x (y + firstH) width
              (height - firstH) px py
        end
    end.

Definition findDeepestNodeAtPoint (node : option LayoutNode)
           (x y width height px py : Z) : option LayoutNode :=
  match node with
  | None => None
  | Some n => findDeepestNodeAtPoint_node n x y width height px py
  end.

(** ** Snap resolver *)

(** [Math.round (n / 2)] on an integer [n]: halves round up. *)
Definition roundHalf (n : Z) : Z := (n + 1) / 2.

(** [Math.min] of the four distances. *)
Definition min4 (a b c d : Z) : Z := Z.min (Z.min (Z.min a b) c) d.

(** A call either returns or, at the non-null assertion
    [map.get(targetNode.id)!], dereferences [undefined] and throws. *)
Inductive Outcome (A : Type) :=
| Throws
| Returns (a : A).
Arguments Throws {A}.
Arguments Returns {A} a.

Definition hitTestForPreview (rootNode : option LayoutNode)
           (viewportWidth viewportHeight px py : Z)
  : Outcome (option SnapPreview) :=
  let map :=
    match rootNode with
    | Some _ => computeBounds rootNode 0 0 viewportWidth viewportHeight ∅
    | None => ∅
    end in
  let targetNode :=
    match rootNode with
    | Some _ =>
        findDeepestNodeAtPoint rootNode 0 0 viewportWidth viewportHeight px py
    | None => None
    end in
  match targetNode with
  | Some t =>
      match map !! node_id t with
      | None => Throws
      | Some b =>
          let distLeft := px - bx b in
          let distRight := bx b + bwidth b - px in
          let distTop := py - by_ b in
          let distBottom := by_ b + bheight b - py in
          let minD := min4 distLeft distRight distTop distBottom in
          if minD >? SNAP_DISTANCE then Returns None
          else if minD =? distLeft then
            Returns (Some (mkPreview (bx b) (by_ b) (roundHalf (bwidth b))
                             (bheight b) (Some (node_id t)) SideLeft))
          else if minD =? distRight then
            Returns (Some (mkPreview (bx b + roundHalf (bwidth b)) (by_ b)
                             (roundHalf (bwidth b)) (bheight b)
                             (Some (node_id t)) SideRight))
          else if minD =? distTop then
            Returns (Some (mkPreview (bx b) (by_ b) (bwidth b)
                             (roundHalf (bheight b)) (Some (node_id t))
                             SideTop))
          else
            Returns (Some (mkPreview (bx b) (by_ b + roundHalf (bheight b))
                             (bwidth b) (roundHalf (bheight b))
                             (Some (node_id t)) SideBottom))
      end
  | None =>
      if px <=? SNAP_DISTANCE then
        Returns (Some (mkPreview 0 0 (roundHalf viewportWidth) viewportHeight
                         None SideLeft))
      else if px >=? viewportWidth - SNAP_DISTANCE then
        Returns (Some (mkPreview (roundHalf viewportWidth) 0
                         (roundHalf viewportWidth) viewportHeight
                         None SideRight))
      else if py <=? SNAP_DISTANCE then
        Returns (Some (mkPreview 0 0 viewportWidth (roundHalf viewportHeight)
                         None SideTop))
      else if py >=? viewportHeight - SNAP_DISTANCE then
        Returns (Some (mkPreview 0 (roundHalf viewportHeight) viewportWidth
                         (roundHalf viewportHeight) None SideBottom))
      else Returns None
  end.

(** ** A concrete run *)

Definition g0 : IdSource := mkIdSource (fun n => pretty n) 0.

Definition run {A} (c : Gen A) (g : IdSource) : A := fst (c g).

(** Window 1 on the left, window 2 on the right. *)
Definition sampleTwo : LayoutNode :=
  LayoutSplit "s" Vertical (1 # 2)
    (LayoutLeaf "a" (Some 1)) (LayoutLeaf "b" (Some 2)).

(** ** Observations on trees used by the statements *)

(** The node ids of a tree, parents before children, first before second. *)
Fixpoint ids (n : LayoutNode) : list NodeId :=
  match n with
  | LayoutLeaf i _ => [i]
  | LayoutSplit i _ _ f s => i :: ids f ++ ids s
  end.

(** The [windowId] fields of the leaves, left to right. *)
Fixpoint leaves (n : LayoutNode) : list (option Z) :=
  match n with
  | LayoutLeaf _ w => [w]
  | LayoutSplit _ _ _ f s => leaves f ++ leaves s
  end.

Definition idsOf (root : option LayoutNode) : list NodeId :=
  match root with
  | Some n => ids n
  | None => []
  end.

Definition leavesOf (root : option LayoutNode) : list (option Z) :=
  match root with
  | None => []
  | Some n => leaves n
  end.

(** The ids of the unoccupied leaves. *)
Fixpoint emptyLeafIds (n : LayoutNode) : list NodeId :=
  match n with
  | LayoutLeaf i None => [i]
  | LayoutLeaf _ (Some _) => []
  | LayoutSplit _ _ _ f s => emptyLeafIds f ++ emptyLeafIds s
  end.

(** [n] occurs in [t] as a subtree. *)
Fixpoint inTree (n t : LayoutNode) : Prop :=
  n = t \/
  match t with
  | LayoutLeaf _ _ => False
  | LayoutSplit _ _ _ f s => inTree n f \/ inTree n s
  end.

(** Every split's ratio satisfies [P]. *)
Fixpoint ratiosSatisfy (P : Q -> Prop) (n : LayoutNode) : Prop :=
  match n with
  | LayoutLeaf _ _ => True
  | LayoutSplit _ _ r f s => P r /\ ratiosSatisfy P f /\ ratiosSatisfy P s
  end.

Definition openUnit (r : Q) : Prop := (0 < r)%Q /\ (r < 1)%Q.
Definition closedUnit (r : Q) : Prop := (0 <= r)%Q /\ (r <= 1)%Q.

(** Structural equivalence that ignores the generated ids. *)
Fixpoint shapeEq_node (a b : LayoutNode) : bool :=
  match a, b with
  | LayoutLeaf _ w, LayoutLeaf _ w' => bool_decide (w = w')
  | LayoutSplit _ o r f s, LayoutSplit _ o' r' f' s' =>
      bool_decide (o = o') && Qeq_bool r r'
      && shapeEq_node f f' && shapeEq_node s s'
  | _, _ => false
  end.

Definition shapeEq (a b : option LayoutNode) : bool :=
  match a, b with
  | None, None => true
  | Some x, Some y => shapeEq_node x y
  | _, _ => false
  end.

(** Removing a list of occupants, one [removeWindowFromLayout] call each. *)
Definition removeAll (ws : list Z) (root : option LayoutNode)
  : option LayoutNode :=
  fold_left (fun r w => removeWindowFromLayout w r) ws root.

(** The values [rootNode] can take: it starts as [null], and every update is
    an insert (whatever [makeId] draws) or a remove. *)
Inductive reachable : option LayoutNode -> Prop :=
| reach_init : reachable None
| reach_insert root w side target g :
    reachable root ->
    reachable (run (insertIntoLayout w side target root) g)
| reach_remove root w :
    reachable root ->
    reachable (removeWindowFromLayout w root).

(** One-hole contexts: a tree with one subtree cut out. *)
Inductive Ctx :=
| CHole
| CFirst (id : NodeId) (o : Orientation) (r : Q) (c : Ctx) (second : LayoutNode)
| CSecond (id : NodeId) (o : Orientation) (r : Q) (first : LayoutNode) (c : Ctx).

Fixpoint plug (c : Ctx) (n : LayoutNode) : LayoutNode :=
  match c with
  | CHole => n
  | CFirst i o r c' s => LayoutSplit i o r (plug c' n) s
  | CSecond i o r f c' => LayoutSplit i o r f (plug c' n)
  end.

(** The ids of the nodes of a context: the path to the hole and the
    siblings hanging off it. *)
Fixpoint ctxIds (c : Ctx) : list NodeId :=
  match c with
  | CHole => []
  | CFirst i _ _ c' s => i :: ctxIds c' ++ ids s
  | CSecond i _ _ f c' => i :: ids f ++ ctxIds c'
  end.

(** *** Remove, as the specification words it

    First every leaf holding the occupant is replaced by a hole; then the
    holes are collapsed upward. *)
Inductive Erased :=
| EHole
| ELeaf (id : NodeId) (windowId : option Z)
| ESplit (id : NodeId) (o : Orientation) (r : Q) (first second : Erased).

Fixpoint eraseLeaves (windowId : Z) (n : LayoutNode) : Erased :=
  match n with
  | LayoutLeaf i w => if sameWindow w windowId then EHole else ELeaf i w
  | LayoutSplit i o r f s =>
      ESplit i o r (eraseLeaves windowId f) (eraseLeaves windowId s)
  end.

Fixpoint collapse (e : Erased) : option LayoutNode :=
  match e with
  | EHole => None
  | ELeaf i w => Some (LayoutLeaf i w)
  | ESplit i o r f s =>
      match collapse f, collapse s with
      | None, None => None
      | None, Some s' => Some s'
      | Some f', None => Some f'
      | Some f', Some s' => Some (LayoutSplit i o r f' s')
      end
  end.

Definition specRemove (windowId : Z) (root : option LayoutNode)
  : option LayoutNode :=
  match root with
  | None => None
  | Some n => collapse (eraseLeaves windowId n)
  end.

(** *** Rectangles as regions *)

(** The pixels a rectangle owns: left and top edges in, right and bottom
    edges out. *)
Definition covers (b : Bounds) (px py : Z) : Prop :=
  bx b <= px < bx b + bwidth b /\ by_ b <= py < by_ b + bheight b.

(** The rectangle with its four edges. *)
Definition within (b : Bounds) (px py : Z) : Prop :=
  bx b <= px <= bx b + bwidth b /\ by_ b <= py <= by_ b + bheight b.

(** The least of the distances from a point to the four edges. *)
Definition minEdgeDistance (b : Bounds) (px py : Z) : Z :=
  min4 (Z.abs (px - bx b)) (Z.abs (bx b + bwidth b - px))
       (Z.abs (py - by_ b)) (Z.abs (by_ b + bheight b - py)).

(** The rectangle of the call of [findDeepestNodeAtPoint] that returns the
    hit leaf: the same traversal, recording the rectangle instead of the
    node. *)
Fixpoint hitLeafBounds (node : LayoutNode) (x y width height px py : Z)
  : option Bounds :=
  if outside x y width height px py then None
  else
    match node with
    | LayoutLeaf _ _ => Some (mkBounds x y width height)
    | LayoutSplit _ Vertical ratio first second =>
        let firstW := floorMul width ratio in
        match findDeepestNodeAtPoint_node first x y firstW height px py with
        | Some _ => hitLeafBounds first x y firstW height px py
        | None =>
            hitLeafBounds second (x + firstW) y (width - firstW) height px py
        end
    | LayoutSplit _ Horizontal ratio first second =>
        let firstH := floorMul height ratio in
        match findDeepestNodeAtPoint_node first x y width firstH px py with
        | Some _ => hitLeafBounds first x y width firstH px py
        | None =>
            hitLeafBounds second x (y + firstH) width (height - firstH) px py
        end
    end.

(** The rectangle whose edges the snap resolver is meant to measure
    against: the hit leaf's, or the viewport's when no leaf is hit. *)
Definition candidateRect (root : option LayoutNode)
           (viewportWidth viewportHeight px py : Z) : Bounds :=
  match root with
  | Some n =>
      default (mkBounds 0 0 viewportWidth viewportHeight)
              (hitLeafBounds n 0 0 viewportWidth viewportHeight px py)
  | None => mkBounds 0 0 viewportWidth viewportHeight
  end.

(** A leaf survives the removal of the occupants [ws] when it holds none
    of them. *)
Definition survives (ws : list Z) (l : option Z) : Prop :=
  match l with
  | Some w => w ∉ ws
  | None => True
  end.

#[global] Instance survives_dec ws l : Decision (survives ws l).
Proof. destruct l; simpl; apply _. Defined.

(** *** Insert, as the specification words it *)

(** The split that takes the place of [old] when window [win] is dropped on
    it from [side], with the ids [makeId] draws from [g]. *)
Definition droppedOn (win : Z) (side : Side) (old : LayoutNode)
           (g : IdSource) : LayoutNode * IdSource :=
  let (wid, g1) := makeId "leaf" g in
  let (sid, g2) := makeId "split" g1 in
  let new := LayoutLeaf wid (Some win) in
  (match side with
   | SideLeft => LayoutSplit sid Vertical (1 # 2) new old
   | SideRight => LayoutSplit sid Vertical (1 # 2) old new
   | SideTop => LayoutSplit sid Horizontal (1 # 2) new old
   | SideBottom => LayoutSplit sid Horizontal (1 # 2) old new
   end, g2).

(** *** The bounds of a split and of its children *)

(** How a split's rectangle [b] is divided between its children. *)
Definition splitsInto (o : Orientation) (r : Q) (b bf bs : Bounds) : Prop :=
  match o with
  | Vertical =>
      bf = mkBounds (bx b) (by_ b) (floorMul (bwidth b) r) (bheight b) /\
      bs = mkBounds (bx b + floorMul (bwidth b) r) (by_ b)
                    (bwidth b - floorMul (bwidth b) r) (bheight b)
  | Horizontal =>
      bf = mkBounds (bx b) (by_ b) (bwidth b) (floorMul (bheight b) r) /\
      bs = mkBounds (bx b) (by_ b + floorMul (bheight b) r)
                    (bwidth b) (bheight b - floorMul (bheight b) r)
  end.

(** What the map holds for a split and its two children. *)
Definition assigned (m : gmap NodeId Bounds) (i : NodeId) (o : Orientation)
           (r : Q) (f s : LayoutNode) (b bf bs : Bounds) : Prop :=
  m !! i = Some b /\ m !! node_id f = Some bf /\ m !! node_id s = Some bs /\
  0 <= bwidth b /\ 0 <= bheight b /\ splitsInto o r b bf bs.

(** *** The preview, as the specification words it

    Half of the leaf's bounds on the side's axis, floor for the first half
    and the remainder for the second, full extent on the other axis. *)
Definition specPreviewRect (b : Bounds) (side : Side) : Bounds :=
  match side with
  | SideLeft => mkBounds (bx b) (by_ b) (bwidth b / 2) (bheight b)
  | SideRight =>
      mkBounds (bx b + bwidth b / 2) (by_ b) (bwidth b - bwidth b / 2)
               (bheight b)
  | SideTop => mkBounds (bx b) (by_ b) (bwidth b) (bheight b / 2)
  | SideBottom =>
      mkBounds (bx b) (by_ b + bheight b / 2) (bwidth b)
               (bheight b - bheight b / 2)
  end.

Definition previewRect (p : SnapPreview) : Bounds :=
  mkBounds (px_ p) (py_ p) (pwidth p) (pheight p).

(** *** Sample layouts *)

(** The first insert into the empty layout: window 1 snapped to the left
    viewport edge. *)
Definition afterFirstInsert : option LayoutNode :=
  run (insertIntoLayout 1 SideLeft None None) g0.

(** Window 2 dropped on the placeholder leaf left by the first insert. *)
Definition afterSecondInsert : option LayoutNode :=
  run (insertIntoLayout 2 SideRight (Some "leaf_0") afterFirstInsert) g0.

(** *** Further observations

    The window ids held by the leaves, left to right. *)
Definition occupants (n : LayoutNode) : list Z := omap id (leaves n).

Definition occupantsOf (root : option LayoutNode) : list Z :=
  omap id (leavesOf root).

(** The distance the snap resolver measures towards one side of a
    rectangle. *)
Definition sideDistance (b : Bounds) (side : Side) (px py : Z) : Z :=
  match side with
  | SideLeft => px - bx b
  | SideRight => bx b + bwidth b - px
  | SideTop => py - by_ b
  | SideBottom => by_ b + bheight b - py
  end.

(** The ids the next insert draws when its target is found: three from the
    null root (placeholder leaf, window leaf, split), two otherwise (window
    leaf, split). *)
Definition nextIds (root : option LayoutNode) (g : IdSource) : list NodeId :=
  match root with
  | None =>
      let (a, g1) := makeId "leaf" g in
      let (b, g2) := makeId "leaf" g1 in
      let (c, _) := makeId "split" g2 in
      [a; b; c]
  | Some _ =>
      let (a, g1) := makeId "leaf" g in
      let (c, _) := makeId "split" g1 in
      [a; c]
  end.

(** The rectangle [computeBounds] hands to the hole of a context, from the
    rectangle of the whole tree. *)
Fixpoint holeRect (c : Ctx) (x y w h : Z) : Bounds :=
  match c with
  | CHole => mkBounds x y w h
  | CFirst _ Vertical r c' _ => holeRect c' x y (floorMul w r) h
  | CFirst _ Horizontal r c' _ => holeRect c' x y w (floorMul h r)
  | CSecond _ Vertical r _ c' =>
      holeRect c' (x + floorMul w r) y (w - floorMul w r) h
  | CSecond _ Horizontal r _ c' =>
      holeRect c' x (y + floorMul h r) w (h - floorMul h r)
  end.

(** A context inside the hole of another. *)
Fixpoint ctxComp (c d : Ctx) : Ctx :=
  match c with
  | CHole => d
  | CFirst i o r c' s => CFirst i o r (ctxComp c' d) s
  | CSecond i o r f c' => CSecond i o r f (ctxComp c' d)
  end.

Definition oppositeSide (side : Side) : Side :=
  match side with
  | SideLeft => SideRight
  | SideRight => SideLeft
  | SideTop => SideBottom
  | SideBottom => SideTop
  end.

(** The order in which the snap resolver tries the sides. *)
Definition sideRank (side : Side) : nat :=
  match side with
  | SideLeft => 0
  | SideRight => 1
  | SideTop => 2
  | SideBottom => 3
  end%nat.

(** The four-way test at the end of [remove], on the results for the two
    children. *)
Definition joinSplit (i : NodeId) (o : Orientation) (r : Q)
           (f s : option LayoutNode) : option LayoutNode :=
  match f, s with
  | None, None => None
  | None, Some s' => Some s'
  | Some f', None => Some f'
  | Some f', Some s' => Some (LayoutSplit i o r f' s')
  end.

(** ** The component around the engine

    The state slices of the component, its event handlers and what it
    renders.  A window's position is a fraction of a pixel from the start
    ([Math.random() * ...]), so [x] and [y] are rationals; sizes are the
    integers of [WINDOW_SIZE].  Each handler is the composition of the
    functional updates it queues, in the order it queues them. *)

Record WindowItem := mkWindow {
  w_id : Z;
  w_title : string;
  w_color : string;
  w_x : Q;
  w_y : Q;
  w_width : Z;
  w_height : Z;
  w_isSnapped : bool
}.

Record Dragging := mkDragging {
  dragWindowId : Z;
  dragOffsetX : Q;
  dragOffsetY : Q
}.

Record AppState := mkApp {
  windows : list WindowItem;
  rootNode : option LayoutNode;
  viewportW : Z;
  viewportH : Z;
  dragging : option Dragging;
  snapPreview : option SnapPreview
}.

Definition COLORS : list string :=
  ["#FF6B6B"; "#4ECDC4"; "#45B7D1"; "#96CEB4";
   "#FFEAA7"; "#DDA0DD"; "#98D8E8"; "#F7DC6F"].

Definition WINDOW_SIZE : Z * Z := (320, 200).

(** [createWindow]: [now] is [Date.now()], [rx] and [ry] the two results of
    [Math.random()]. *)
Definition createWindow (now : Z) (rx ry : Q) (st : AppState) : AppState :=
  let prev := windows st in
  let w :=
    mkWindow now
      ("Node " +:+ pretty (length prev + 1)%nat)
      (nth (length prev mod length COLORS)%nat COLORS "")
      (rx * Qmax 0 (inject_Z (viewportW st - WINDOW_SIZE.1)))%Q
      (ry * Qmax 0 (inject_Z (viewportH st - WINDOW_SIZE.2)))%Q
      WINDOW_SIZE.1 WINDOW_SIZE.2 false in
  mkApp (prev ++ [w]) (rootNode st) (viewportW st) (viewportH st)
        (dragging st) (snapPreview st).

(** [prev.map(w => w.id === windowId ? { ...w, isSnapped } : w)]. *)
Definition setSnapped (windowId : Z) (flag : bool) (ws : list WindowItem)
  : list WindowItem :=
  map (fun w =>
         if w_id w =? windowId then
           mkWindow (w_id w) (w_title w) (w_color w) (w_x w) (w_y w)
                    (w_width w) (w_height w) flag
         else w) ws.

(** The whole of [insertIntoLayout]: the layout update and the flag. *)
Definition insertIntoLayoutApp (windowId : Z) (target : option NodeId)
           (side : Side) (g : IdSource) (st : AppState) : AppState :=
  mkApp (setSnapped windowId true (windows st))
        (run (insertIntoLayout windowId side target (rootNode st)) g)
        (viewportW st) (viewportH st) (dragging st) (snapPreview st).

(** The whole of [removeWindowFromLayout]. *)
Definition removeWindowFromLayoutApp (windowId : Z) (st : AppState)
  : AppState :=
  mkApp (setSnapped windowId false (windows st))
        (removeWindowFromLayout windowId (rootNode st))
        (viewportW st) (viewportH st) (dragging st) (snapPreview st).

Definition deleteWindow (windowId : Z) (st : AppState) : AppState :=
  let st1 := removeWindowFromLayoutApp windowId st in
  mkApp (List.filter (fun w => negb (w_id w =? windowId)) (windows st1))
        (rootNode st1) (viewportW st1) (viewportH st1)
        (dragging st1) (snapPreview st1).

(** [onMouseDownWindow]: [rectLeft] and [rectTop] are the corner of the
    title bar's bounding rectangle. *)
Definition onMouseDownWindow (clientX clientY : Z) (rectLeft rectTop : Q)
           (w : WindowItem) (st : AppState) : AppState :=
  mkApp (windows st) (rootNode st) (viewportW st) (viewportH st)
        (Some (mkDragging (w_id w) (inject_Z clientX - rectLeft)%Q
                          (inject_Z clientY - rectTop)%Q))
        (snapPreview st).

(** [Math.max(0, Math.min(pos, limit))]. *)
Definition clamp (pos limit : Q) : Q := Qmax 0 (Qmin pos limit).

(** The [mousemove] listener. *)
Definition onMove (clientX clientY : Z) (st : AppState) : Outcome AppState :=
  match dragging st with
  | None => Returns st
  | Some d =>
      let moved :=
        map (fun w =>
               if negb (w_id w =? dragWindowId d) then w
               else
                 let nx := clamp (inject_Z clientX - dragOffsetX d)%Q
                                 (inject_Z (viewportW st - w_width w)) in
                 let ny := clamp (inject_Z clientY - dragOffsetY d)%Q
                                 (inject_Z (viewportH st - w_height w)) in
                 mkWindow (w_id w) (w_title w) (w_color w) nx ny
                          (w_width w) (w_height w) (w_isSnapped w))
            (windows st) in
      match hitTestForPreview (rootNode st) (viewportW st) (viewportH st)
                              clientX clientY with
      | Throws => Throws
      | Returns preview =>
          Returns (mkApp moved (rootNode st) (viewportW st) (viewportH st)
                         (dragging st) preview)
      end
  end.

(** The [mouseup] listener; [g] is where [makeId] stands when it runs. *)
Definition onUp (g : IdSource) (st : AppState) : AppState :=
  let st1 :=
    match dragging st, snapPreview st with
    | Some d, Some p =>
        insertIntoLayoutApp (dragWindowId d) (targetNodeId p) (pside p) g st
    | _, _ => st
    end in
  mkApp (windows st1) (rootNode st1) (viewportW st1) (viewportH st1)
        None None.

(** The [resize] listener. *)
Definition onResize (innerWidth innerHeight : Z) (st : AppState) : AppState :=
  mkApp (windows st) (rootNode st) innerWidth innerHeight
        (dragging st) (snapPreview st).

(** What [nodeToElements] makes of an occupied leaf: the [div] with its
    key, its box, and the window it shows. *)
Record Element := mkElement {
  e_key : NodeId;
  e_left : Z;
  e_top : Z;
  e_width : Z;
  e_height : Z;
  e_window : WindowItem
}.

Fixpoint nodeToElements_node (ws : list WindowItem) (node : LayoutNode)
         (x y width height : Z) : list Element :=
  match node with
  | LayoutLeaf _ None => []
  | LayoutLeaf i (Some wid) =>
      match List.find (fun p => w_id p =? wid) ws with
      | None => []
      | Some w => [mkElement i x y width height w]
      end
  | LayoutSplit _ Vertical ratio first second =>
      let firstW := floorMul width ratio in
      let secondW := width - firstW in
      nodeToElements_node ws first x y firstW height
      ++ nodeToElements_node ws second (x + firstW) y secondW height
  | LayoutSplit _ Horizontal ratio first second =>
      let firstH := floorMul height ratio in
      let secondH := height - firstH in
      nodeToElements_node ws first x y width firstH
      ++ nodeToElements_node ws second x (y + firstH) width secondH
  end.

Definition nodeToElements (ws : list WindowItem) (node : option LayoutNode)
           (x y width height : Z) : list Element :=
  match node with
  | None => []
  | Some n => nodeToElements_node ws n x y width height
  end.

Definition snappedElements (st : AppState) : list Element :=
  nodeToElements (windows st) (rootNode st) 0 0 (viewportW st) (viewportH st).

(** The windows drawn floating: [windows.filter(w => !w.isSnapped)]. *)
Definition floatingElements (st : AppState) : list WindowItem :=
  List.filter (fun w => negb (w_isSnapped w)) (windows st).

(** *** Observations on what is rendered *)

Definition rectOf (e : Element) : Bounds :=
  mkBounds (e_left e) (e_top e) (e_width e) (e_height e).

(** No pixel belongs to both rectangles. *)
Definition disjointRects (a b : Bounds) : Prop :=
  forall px py, ~ (covers a px py /\ covers b px py).

Fixpoint pairwiseDisjoint (l : list Bounds) : Prop :=
  match l with
  | [] => True
  | b :: l' => Forall (disjointRects b) l' /\ pairwiseDisjoint l'
  end.

(** The ids of the occupied leaves, left to right. *)
Fixpoint occupiedLeafIds (n : LayoutNode) : list NodeId :=
  match n with
  | LayoutLeaf i (Some _) => [i]
  | LayoutLeaf _ None => []
  | LayoutSplit _ _ _ f s => occupiedLeafIds f ++ occupiedLeafIds s
  end.

(** *** The component as a transition system

    The component starts with no window and no layout.  Each transition is
    one handler run.  The premises say what the environment provides:
    [Date.now()] has not been used as a window id, [makeId] draws ids the
    tree does not have, the title bar that receives [mousedown] belongs to a
    floating window (only those carry the listener), and a close button is
    not activated in the middle of a drag. *)
Definition initialState (vw vh : Z) : AppState :=
  mkApp [] None vw vh None None.

Inductive appStep : AppState -> AppState -> Prop :=
| step_create st now rx ry :
    now ∉ map w_id (windows st) ->
    appStep st (createWindow now rx ry st)
| step_down st w cx cy rl rt :
    w ∈ floatingElements st ->
    appStep st (onMouseDownWindow cx cy rl rt w st)
| step_move st cx cy st' :
    onMove cx cy st = Returns st' ->
    appStep st st'
| step_up st g :
    NoDup (nextIds (rootNode st) g ++ idsOf (rootNode st)) ->
    appStep st (onUp g st)
| step_delete st windowId :
    dragging st = None ->
    appStep st (deleteWindow windowId st)
| step_resize st w h :
    appStep st (onResize w h st).

Inductive appReachable : AppState -> Prop :=
| app_init vw vh : appReachable (initialState vw vh)
| app_step st st' : appReachable st -> appStep st st' -> appReachable st'.

(** What the state slices promise each other. *)
Record Consistent (st : AppState) : Prop := mkConsistent {
  cons_window_ids : NoDup (map w_id (windows st));
  cons_node_ids : NoDup (idsOf (rootNode st));
  cons_occupants : NoDup (occupantsOf (rootNode st));
  cons_flags :
    forall w, w ∈ windows st ->
              (w_isSnapped w = true <-> w_id w ∈ occupantsOf (rootNode st));
  cons_owned :
    forall v, v ∈ occupantsOf (rootNode st) -> v ∈ map w_id (windows st);
  cons_drag :
    forall d, dragging st = Some d ->
              exists w, w ∈ windows st /\ w_id w = dragWindowId d /\
                        w_isSnapped w = false;
  cons_preview :
    forall p, snapPreview st = Some p ->
              is_Some (dragging st) /\
              forall tid, targetNodeId p = Some tid ->
                          tid ∈ idsOf (rootNode st)
}.

(** The two windows of [sampleTwo], both marked snapped. *)
Definition sampleWindows : list WindowItem :=
  [mkWindow 1 "Node 1" "#FF6B6B" 0 0 320 200 true;
   mkWindow 2 "Node 2" "#4ECDC4" 0 0 320 200 true].

(** The two tiled windows and a third one floating, being dragged. *)
Definition sampleState : AppState :=
  mkApp (sampleWindows ++ [mkWindow 9 "Node 3" "#45B7D1" 700 10 320 200 false])
        (Some sampleTwo) 800 600 (Some (mkDragging 9 5 5)) None.

(** [sampleState] after the pointer moved to (2000, 300). *)
Definition sampleMoved : AppState :=
  match onMove 2000 300 sampleState with
  | Returns st => st
  | Throws => sampleState
  end.

(** Case analysis on the comparisons of the snap resolver. *)
Ltac split_ifs :=
  repeat match goal with
         | |- context [if ?a >? ?b then _ else _] =>
             rewrite (Z.gtb_ltb a b); destruct (Z.ltb_spec b a)
         | |- context [if ?a =? ?b then _ else _] => destruct (Z.eqb_spec a b)
         | |- context [if ?a <=? ?b then _ else _] => destruct (Z.leb_spec a b)
         | |- context [if ?a >=? ?b then _ else _] => destruct (Z.geb_spec a b)
         end.

(** Closed decidable goals are settled by evaluation. *)
Ltac by_compute := apply (bool_decide_unpack _); vm_compute; exact I.

(** * Properties *)

(** ** Remove *)

Lemma sameWindow_true l w : sameWindow l w = true <-> l = Some w.
Proof.
  destruct l as [v|]; simpl.
  - rewrite Z.eqb_eq. split; congruence.
  - split; discriminate.
Qed.

Lemma sameWindow_false l w : sameWindow l w = false <-> l <> Some w.
Proof.
  rewrite <- sameWindow_true. destruct (sameWindow l w); split; congruence.
Qed.

Lemma leaves_nonempty n : leaves n <> [].
Proof.
  induction n as [i w|i o r f IHf s IHs]; simpl; [discriminate|].
  destruct (leaves f); [contradiction|discriminate].
Qed.

Lemma leavesOf_nil root : leavesOf root = [] <-> root = None.
Proof.
  destruct root as [n|]; simpl; split; try done.
  intros H. by apply leaves_nonempty in H.
Qed.

Lemma remove_node_leaves w n :
  leavesOf (remove_node w n) = filter (fun l => l <> Some w) (leaves n).
Proof.
  induction n as [i l|i o r f IHf s IHs]; simpl.
  - destruct (sameWindow l w) eqn:E.
    + apply sameWindow_true in E. rewrite filter_cons_False; [done|]. tauto.
    + apply sameWindow_false in E. by rewrite filter_cons_True.
  - rewrite filter_app, <- IHf, <- IHs.
    destruct (remove_node w f), (remove_node w s); simpl;
      by rewrite ?app_nil_r.
Qed.

Lemma remove_leaves w root :
  leavesOf (remove w root) = filter (fun l => l <> Some w) (leavesOf root).
Proof. destruct root; [apply remove_node_leaves|done]. Qed.

Lemma remove_node_absent w n : Some w ∉ leaves n -> remove_node w n = Some n.
Proof.
  induction n as [i l|i o r f IHf s IHs]; simpl; intros H.
  - destruct (sameWindow l w) eqn:E; [|done].
    apply sameWindow_true in E. subst. set_solver.
  - rewrite IHf, IHs; set_solver.
Qed.

Lemma remove_node_spec w n : remove_node w n = collapse (eraseLeaves w n).
Proof.
  induction n as [i l|i o r f IHf s IHs]; simpl.
  - by destruct (sameWindow l w).
  - by rewrite IHf, IHs.
Qed.

Lemma removeAll_leaves ws root :
  leavesOf (removeAll ws root) = filter (survives ws) (leavesOf root).
Proof.
  unfold removeAll. revert root.
  induction ws as [|w ws IH]; intros root; simpl.
  - induction (leavesOf root) as [|l ls IHl]; [done|].
    rewrite filter_cons_True; [by f_equal|]. destruct l; simpl; set_solver.
  - rewrite IH. unfold removeWindowFromLayout. rewrite remove_leaves.
    rewrite list_filter_filter. apply list_filter_iff.
    intros [v|]; simpl.
    + rewrite not_elem_of_cons.
      split; intros [H1 H2]; split; try done; congruence.
    + split; [done|]. intros _. split; [done|discriminate].
Qed.

(** C8: [remove] is the specification's erase-then-collapse (every leaf
    holding the occupant becomes a hole; a split with one hole child is
    replaced by the survivor, with two it becomes a hole itself), computed in
    one bottom-up recursion; the surviving leaves are the others, in order;
    and an occupant held by no leaf leaves the tree unchanged. *)
Theorem remove_collapses_upward (w : Z) (root : option LayoutNode) :
  removeWindowFromLayout w root = specRemove w root /\
  leavesOf (removeWindowFromLayout w root)
    = filter (fun l => l <> Some w) (leavesOf root) /\
  (Some w ∉ leavesOf root -> removeWindowFromLayout w root = root).
Proof.
  unfold removeWindowFromLayout. split; [|split].
  - destruct root; [apply remove_node_spec|done].
  - apply remove_leaves.
  - destruct root as [n|]; [apply remove_node_absent|done].
Qed.

Lemma remove_collapses_upward_witness :
  (Some 7 ∉ leavesOf (Some sampleTwo)) /\
  removeWindowFromLayout 7 (Some sampleTwo) = Some sampleTwo.
Proof.
  split; [by_compute|].
  apply (remove_collapses_upward 7 (Some sampleTwo)). by_compute.
Defined.

Lemma filter_agree {A} (P Q : A -> Prop)
      `{!forall x, Decision (P x)} `{!forall x, Decision (Q x)} (l : list A) :
  (forall x, x ∈ l -> (P x <-> Q x)) -> filter P l = filter Q l.
Proof.
  induction l as [|a l IH]; intros Hpq; [done|].
  assert (Ha : P a <-> Q a) by (apply Hpq, elem_of_cons; by left).
  assert (Hl : filter P l = filter Q l).
  { apply IH. intros x Hx. apply Hpq, elem_of_cons. by right. }
  destruct (decide (P a)) as [Hp|Hp].
  - rewrite !filter_cons_True; [by f_equal|tauto|done].
  - rewrite !filter_cons_False; [done|tauto|done].
Qed.

Lemma filter_none_nil (l : list (option Z)) :
  filter (fun o => o = None) l = [] <-> None ∉ l.
Proof.
  induction l as [|[v|] l IH].
  - split; [intros _; apply not_elem_of_nil|done].
  - rewrite filter_cons_False by discriminate.
    rewrite IH, not_elem_of_cons. split; [done|tauto].
  - rewrite filter_cons_True by done.
    rewrite not_elem_of_cons. split; [discriminate|tauto].
Qed.

(** C1, as stated, fails: after the first insert the tree holds the window's
    leaf and the placeholder leaf of [defaultLeaf]; removing the only
    occupant leaves the placeholder as root, not [null]. *)
Lemma removeAll_not_none :
  reachable afterFirstInsert /\
  leavesOf afterFirstInsert = [Some 1; None] /\
  removeAll [1] afterFirstInsert = Some (LayoutLeaf "leaf_0" None) /\
  removeAll [1] afterFirstInsert <> None.
Proof.
  split; [|split; [|split]].
  - apply (reach_insert None 1 SideLeft None g0), reach_init.
  - reflexivity.
  - reflexivity.
  - discriminate.
Qed.

(** C1, amended: removing every occupant of a tree leaves exactly its
    unoccupied leaves (so no occupant remains), and the root is [null]
    exactly when the tree had no unoccupied leaf. *)
Theorem removeAll_leaves_placeholders (ws : list Z) (root : option LayoutNode) :
  (forall w, Some w ∈ leavesOf root -> w ∈ ws) ->
  leavesOf (removeAll ws root) = filter (fun l => l = None) (leavesOf root) /\
  (removeAll ws root = None <-> None ∉ leavesOf root).
Proof.
  intros Hcover.
  assert (Hl : leavesOf (removeAll ws root)
               = filter (fun l => l = None) (leavesOf root)).
  { rewrite removeAll_leaves. apply filter_agree.
    intros [v|] Hin; simpl.
    - split; [|discriminate]. intros Hv. destruct Hv. by apply Hcover.
    - done. }
  split; [exact Hl|].
  rewrite <- leavesOf_nil, Hl. apply filter_none_nil.
Qed.

Lemma removeAll_leaves_placeholders_witness :
  (forall w, Some w ∈ leavesOf (Some sampleTwo) -> w ∈ [1; 2]) /\
  removeAll [1; 2] (Some sampleTwo) = None.
Proof.
  assert (Hc : forall w, Some w ∈ leavesOf (Some sampleTwo) -> w ∈ [1; 2]).
  { intros w Hw. simpl in Hw.
    apply elem_of_cons in Hw as [Hw|Hw];
      [injection Hw as ->; apply elem_of_cons; by left|].
    apply elem_of_cons in Hw as [Hw|Hw];
      [injection Hw as ->; apply elem_of_cons; right; apply elem_of_cons; by left|].
    by apply not_elem_of_nil in Hw. }
  split; [exact Hc|].
  apply (proj2 (removeAll_leaves_placeholders [1; 2] (Some sampleTwo) Hc)).
  by_compute.
Defined.

(** ** Insert *)

Lemma replaceNode_node_fresh win side t tid g :
  tid ∉ ids t -> replaceNode_node win side t tid g = (Some t, g).
Proof.
  revert g. induction t as [i w|i o r f IHf s IHs]; intros g Hfresh;
    simpl in Hfresh.
  - apply not_elem_of_cons in Hfresh as [Hne _].
    simpl. destruct (String.eqb_spec i tid); [congruence|done].
  - apply not_elem_of_cons in Hfresh as [Hne Hfresh].
    apply not_elem_of_app in Hfresh as [Hf Hs].
    simpl. destruct (String.eqb_spec i tid); [congruence|].
    unfold gbind. rewrite (IHf g Hf), (IHs g Hs). done.
Qed.

Lemma replaceNode_node_plug win side c n tid g :
  tid ∉ ctxIds c ->
  replaceNode_node win side (plug c n) tid g
  = (Some (plug c (default n (replaceNode_node win side n tid g).1)),
     (replaceNode_node win side n tid g).2).
Proof.
  revert g. induction c as [|i o r c IH s|i o r f c IH]; intros g Hfresh;
    simpl in Hfresh.
  - simpl. destruct (replaceNode_node win side n tid g) as [[m|] g'] eqn:E;
      simpl; [done|].
    exfalso. revert E. clear.
    destruct n as [j [v|]|j o r f s]; simpl;
      destruct (String.eqb j tid); unfold gbind, gret; simpl;
      try discriminate;
      repeat match goal with
             | |- context [replaceNode_node ?a ?b ?c ?d ?e] =>
                 destruct (replaceNode_node a b c d e)
             end; discriminate.
  - apply not_elem_of_cons in Hfresh as [Hne Hfresh].
    apply not_elem_of_app in Hfresh as [Hc Hs].
    simpl. destruct (String.eqb_spec i tid); [congruence|].
    unfold gbind. rewrite (IH g Hc).
    rewrite (replaceNode_node_fresh win side s tid _ Hs). done.
  - apply not_elem_of_cons in Hfresh as [Hne Hfresh].
    apply not_elem_of_app in Hfresh as [Hf Hc].
    simpl. destruct (String.eqb_spec i tid); [congruence|].
    unfold gbind. rewrite (replaceNode_node_fresh win side f tid g Hf).
    rewrite (IH g Hc). done.
Qed.

(** An id that no node carries: the insert changes nothing and draws no
    id. *)
Lemma insert_unknown_target win side p tid g :
  tid ∉ ids p ->
  insertIntoLayout win side (Some tid) (Some p) g = (Some p, g).
Proof.
  intros Hfresh. unfold insertIntoLayout, replaceNode, gbind.
  by rewrite (replaceNode_node_fresh win side p tid g Hfresh).
Qed.

Lemma inTree_plug n t : inTree n t -> exists c, t = plug c n.
Proof.
  induction t as [i w|i o r f IHf s IHs]; simpl.
  - intros [->|[]]. by exists CHole.
  - intros [->|[H|H]].
    + by exists CHole.
    + destruct (IHf H) as [c ->]. by exists (CFirst i o r c s).
    + destruct (IHs H) as [c ->]. by exists (CSecond i o r f c).
Qed.

Lemma wrapWithWindow_droppedOn win side old g :
  wrapWithWindow win side old g = droppedOn win side old g.
Proof. by destruct side. Qed.

(** C7: when the target id names a leaf and no other node, an unoccupied
    leaf just receives the occupant (same tree around it, no id drawn); an
    occupied leaf is replaced by a split of ratio 1/2, vertical for
    left/right and horizontal for top/bottom, whose children are a new leaf
    with the occupant and the old leaf, the new one first for left/top. *)
Theorem insert_on_leaf (win : Z) (side : Side) (c : Ctx) (tid : NodeId)
        (g : IdSource) :
  tid ∉ ctxIds c ->
  insertIntoLayout win side (Some tid) (Some (plug c (LayoutLeaf tid None))) g
  = (Some (plug c (LayoutLeaf tid (Some win))), g) /\
  forall a : Z,
    insertIntoLayout win side (Some tid)
      (Some (plug c (LayoutLeaf tid (Some a)))) g
    = (Some (plug c (droppedOn win side (LayoutLeaf tid (Some a)) g).1),
       (droppedOn win side (LayoutLeaf tid (Some a)) g).2).
Proof.
  intros Hfresh. split; [|intros a]; unfold insertIntoLayout, replaceNode, gbind;
    rewrite (replaceNode_node_plug win side c _ tid g Hfresh);
    cbn [replaceNode_node node_id]; rewrite String.eqb_refl; [done|].
  unfold gbind. rewrite wrapWithWindow_droppedOn.
  by destruct (droppedOn win side (LayoutLeaf tid (Some a)) g).
Qed.

(** C10: when the target id names a split and no node outside it, the whole
    split subtree is replaced by a split of ratio 1/2 holding a new leaf
    with the occupant and the old subtree, ordered and oriented by the
    side. *)
Theorem insert_on_split (win : Z) (side : Side) (c : Ctx) (tid : NodeId)
        (o : Orientation) (r : Q) (f s : LayoutNode) (g : IdSource) :
  tid ∉ ctxIds c ->
  insertIntoLayout win side (Some tid)
    (Some (plug c (LayoutSplit tid o r f s))) g
  = (Some (plug c (droppedOn win side (LayoutSplit tid o r f s) g).1),
     (droppedOn win side (LayoutSplit tid o r f s) g).2).
Proof.
  intros Hfresh. unfold insertIntoLayout, replaceNode, gbind.
  rewrite (replaceNode_node_plug win side c _ tid g Hfresh).
  cbn [replaceNode_node node_id]. rewrite String.eqb_refl.
  unfold gbind. rewrite wrapWithWindow_droppedOn.
  by destruct (droppedOn win side (LayoutSplit tid o r f s) g).
Qed.

Lemma insert_on_leaf_witness :
  ("a" ∉ ctxIds (CFirst "s" Vertical (1 # 2) CHole (LayoutLeaf "b" (Some 2)))) /\
  insertIntoLayout 9 SideBottom (Some "a") (Some sampleTwo) g0
  = (Some (LayoutSplit "s" Vertical (1 # 2)
             (LayoutSplit "split_1" Horizontal (1 # 2)
                (LayoutLeaf "a" (Some 1)) (LayoutLeaf "leaf_0" (Some 9)))
             (LayoutLeaf "b" (Some 2))),
     mkIdSource (draw g0) 2).
Proof.
  assert (H : "a" ∉ ctxIds (CFirst "s" Vertical (1 # 2) CHole
                              (LayoutLeaf "b" (Some 2)))) by by_compute.
  split; [exact H|].
  exact (proj2 (insert_on_leaf 9 SideBottom _ "a" g0 H) 1).
Defined.

Lemma insert_on_split_witness :
  ("s" ∉ ctxIds CHole) /\
  insertIntoLayout 9 SideLeft (Some "s") (Some sampleTwo) g0
  = (Some (LayoutSplit "split_1" Vertical (1 # 2)
             (LayoutLeaf "leaf_0" (Some 9)) sampleTwo),
     mkIdSource (draw g0) 2).
Proof.
  assert (H : "s" ∉ ctxIds CHole) by by_compute.
  split; [exact H|].
  exact (insert_on_split 9 SideLeft CHole "s" Vertical (1 # 2)
           (LayoutLeaf "a" (Some 1)) (LayoutLeaf "b" (Some 2)) g0 H).
Defined.

(** ** Insert followed by remove *)

Lemma shapeEq_node_refl t : shapeEq_node t t = true.
Proof.
  induction t as [i w|i o r f IHf s IHs]; simpl.
  - by apply bool_decide_eq_true.
  - rewrite IHf, IHs, bool_decide_eq_true_2 by done.
    assert (Qeq_bool r r = true) as -> by (apply Qeq_bool_iff; reflexivity).
    done.
Qed.

Lemma remove_droppedOn win side old g :
  Some win ∉ leaves old ->
  remove_node win (droppedOn win side old g).1 = Some old.
Proof.
  intros Habs. pose proof (remove_node_absent win old Habs) as Hold.
  destruct side; cbn [droppedOn makeId fst];
    change (remove_node win (LayoutSplit ?i ?o ?r ?a ?b))
      with (match remove_node win a, remove_node win b with
            | None, None => None
            | None, Some s' => Some s'
            | Some f', None => Some f'
            | Some f', Some s' => Some (LayoutSplit i o r f' s')
            end);
    rewrite Hold; cbn [remove_node sameWindow]; by rewrite Z.eqb_refl.
Qed.

Lemma replace_then_remove win side t tid g :
  Some win ∉ leaves t -> tid ∉ emptyLeafIds t ->
  exists n g', replaceNode_node win side t tid g = (Some n, g') /\
               remove_node win n = Some t.
Proof.
  revert g. induction t as [i w|i o r f IHf s IHs]; intros g Habs Hne.
  - cbn [replaceNode_node node_id]. destruct (String.eqb_spec i tid) as [->|Hi].
    + destruct w as [a|]; [|simpl in Hne; set_solver].
      unfold gbind. rewrite wrapWithWindow_droppedOn.
      pose proof (remove_droppedOn win side (LayoutLeaf tid (Some a)) g Habs).
      destruct (droppedOn win side (LayoutLeaf tid (Some a)) g) as [n g'].
      by exists n, g'.
    + exists (LayoutLeaf i w), g. split; [done|].
      by apply remove_node_absent.
  - cbn [replaceNode_node node_id]. destruct (String.eqb_spec i tid) as [->|Hi].
    + unfold gbind. rewrite wrapWithWindow_droppedOn.
      pose proof (remove_droppedOn win side (LayoutSplit tid o r f s) g Habs).
      destruct (droppedOn win side (LayoutSplit tid o r f s) g) as [n g'].
      by exists n, g'.
    + simpl in Habs, Hne.
      apply not_elem_of_app in Habs as [Haf Has].
      apply not_elem_of_app in Hne as [Hnf Hns].
      destruct (IHf g Haf Hnf) as (f' & g1 & Ef & Rf).
      destruct (IHs g1 Has Hns) as (s' & g2 & Es & Rs).
      exists (LayoutSplit i o r f' s'), g2. unfold gbind.
      rewrite Ef, Es. split; [done|]. simpl. by rewrite Rf, Rs.
Qed.

(** C2, as stated, fails in two cases.  From the [null] root, insert then
    remove leaves the placeholder leaf.  And an occupant dropped on an
    unoccupied leaf fills it, so that removing it deletes that leaf and
    collapses its parent. *)
Lemma insert_remove_not_restoring :
  (removeWindowFromLayout 1 afterFirstInsert = Some (LayoutLeaf "leaf_0" None) /\
   shapeEq (removeWindowFromLayout 1 afterFirstInsert) None = false) /\
  ((Some 2 ∉ leavesOf afterFirstInsert) /\
   afterFirstInsert = Some (LayoutSplit "split_2" Vertical (1 # 2)
                              (LayoutLeaf "leaf_1" (Some 1))
                              (LayoutLeaf "leaf_0" None)) /\
   removeWindowFromLayout 2 afterSecondInsert
     = Some (LayoutLeaf "leaf_1" (Some 1)) /\
   shapeEq (removeWindowFromLayout 2 afterSecondInsert) afterFirstInsert
     = false).
Proof.
  split; [split; reflexivity|].
  split; [by_compute|]. split; [reflexivity|]. split; reflexivity.
Qed.

(** C2, amended: on a non-empty tree that does not hold the occupant, with
    the target either none or an id that no unoccupied leaf carries, insert
    followed by remove of the same occupant gives back the pre-insert tree,
    ids included. *)
Theorem insert_then_remove (win : Z) (side : Side) (target : option NodeId)
        (p : LayoutNode) (g : IdSource) :
  Some win ∉ leaves p ->
  (forall tid, target = Some tid -> tid ∉ emptyLeafIds p) ->
  removeWindowFromLayout win (run (insertIntoLayout win side target (Some p)) g)
  = Some p /\
  shapeEq
    (removeWindowFromLayout win
       (run (insertIntoLayout win side target (Some p)) g))
    (Some p) = true.
Proof.
  intros Habs Htgt.
  assert (E : removeWindowFromLayout win
                (run (insertIntoLayout win side target (Some p)) g) = Some p).
  { unfold run, insertIntoLayout, removeWindowFromLayout.
    destruct target as [tid|].
    - destruct (replace_then_remove win side p tid g Habs (Htgt tid eq_refl))
        as (n & g' & E & R).
      unfold replaceNode, gbind. rewrite E. exact R.
    - unfold gbind. rewrite wrapWithWindow_droppedOn.
      pose proof (remove_droppedOn win side p g Habs) as R.
      by destruct (droppedOn win side p g). }
  split; [exact E|]. rewrite E. apply shapeEq_node_refl.
Qed.

Lemma insert_then_remove_witness :
  (Some 9 ∉ leaves sampleTwo) /\
  (forall tid, Some "a" = Some tid -> tid ∉ emptyLeafIds sampleTwo) /\
  removeWindowFromLayout 9
    (run (insertIntoLayout 9 SideTop (Some "a") (Some sampleTwo)) g0)
  = Some sampleTwo.
Proof.
  assert (H1 : Some 9 ∉ leaves sampleTwo) by by_compute.
  assert (H2 : forall tid, Some "a" = Some tid -> tid ∉ emptyLeafIds sampleTwo)
    by (intros tid _; apply not_elem_of_nil).
  split; [exact H1|]. split; [exact H2|].
  exact (proj1 (insert_then_remove 9 SideTop (Some "a") sampleTwo g0 H1 H2)).
Defined.

(** ** Reachable trees *)

Lemma ratiosSatisfy_impl (P R : Q -> Prop) n :
  (forall r, P r -> R r) -> ratiosSatisfy P n -> ratiosSatisfy R n.
Proof.
  intros HPR. induction n as [i w|i o r f IHf s IHs]; simpl; [done|].
  intros (Hr & Hf & Hs). auto.
Qed.

(** Any property of ratios that 1/2 has is an invariant of the two
    mutators. *)
Section RatioInvariant.
Variable P : Q -> Prop.
Hypothesis P_half : P (1 # 2)%Q.

Lemma droppedOn_ratios win side old g :
  ratiosSatisfy P old -> ratiosSatisfy P (droppedOn win side old g).1.
Proof. intros Hold. destruct side; simpl; auto. Qed.

Lemma replaceNode_node_ratios win side t tid g :
  ratiosSatisfy P t ->
  exists n g', replaceNode_node win side t tid g = (Some n, g') /\
               ratiosSatisfy P n.
Proof.
  revert g.
  induction t as [i w|i o r f IHf s IHs]; intros g Ht;
    cbn [replaceNode_node node_id]; destruct (String.eqb i tid).
  - destruct w as [a|].
    + unfold gbind. rewrite wrapWithWindow_droppedOn.
      pose proof (droppedOn_ratios win side (LayoutLeaf i (Some a)) g Ht).
      destruct (droppedOn win side (LayoutLeaf i (Some a)) g) as [n g'].
      by exists n, g'.
    + by exists (LayoutLeaf i (Some win)), g.
  - by exists (LayoutLeaf i w), g.
  - unfold gbind. rewrite wrapWithWindow_droppedOn.
    pose proof (droppedOn_ratios win side (LayoutSplit i o r f s) g Ht).
    destruct (droppedOn win side (LayoutSplit i o r f s) g) as [n g'].
    by exists n, g'.
  - destruct Ht as (Hr & Hf & Hs).
    destruct (IHf g Hf) as (f' & g1 & Ef & Rf).
    destruct (IHs g1 Hs) as (s' & g2 & Es & Rs).
    exists (LayoutSplit i o r f' s'), g2. unfold gbind. rewrite Ef, Es.
    split; [done|]. simpl. auto.
Qed.

Lemma remove_node_ratios w t n :
  ratiosSatisfy P t -> remove_node w t = Some n -> ratiosSatisfy P n.
Proof.
  revert n. induction t as [i l|i o r f IHf s IHs]; intros n Ht; simpl.
  - destruct (sameWindow l w); [discriminate|]. by intros [= <-].
  - destruct Ht as (Hr & Hf & Hs).
    destruct (remove_node w f) as [f'|], (remove_node w s) as [s'|];
      intros [= <-]; simpl; auto.
Qed.

Lemma insertIntoLayout_ratios win side target root g :
  (forall n, root = Some n -> ratiosSatisfy P n) ->
  exists n, run (insertIntoLayout win side target root) g = Some n /\
            ratiosSatisfy P n.
Proof.
  intros Hroot. unfold run, insertIntoLayout.
  destruct root as [p|].
  - specialize (Hroot p eq_refl). destruct target as [tid|].
    + destruct (replaceNode_node_ratios win side p tid g Hroot)
        as (n & g' & E & R).
      exists n. unfold replaceNode, gbind. by rewrite E.
    + unfold gbind. rewrite wrapWithWindow_droppedOn.
      pose proof (droppedOn_ratios win side p g Hroot).
      destruct (droppedOn win side p g) as [n g']. by exists n.
  - destruct side; simpl; eexists; (split; [reflexivity|]); simpl; auto.
Qed.

Lemma reachable_ratios root :
  reachable root -> forall n, root = Some n -> ratiosSatisfy P n.
Proof.
  intros Hreach.
  induction Hreach as [|root w side target g Hreach IH|root w Hreach IH];
    intros n E.
  - discriminate.
  - destruct (insertIntoLayout_ratios w side target root g IH)
      as (m & Em & Rm).
    congruence.
  - destruct root as [p|]; [|discriminate].
    exact (remove_node_ratios w p n (IH p eq_refl) E).
Qed.
End RatioInvariant.

Lemma ids_leaves_count n : (length (ids n) + 1 = 2 * length (leaves n))%nat.
Proof.
  induction n as [i w|i o r f IHf s IHs]; simpl; [done|].
  rewrite !length_app. lia.
Qed.

(** C9: in every tree reachable from the [null] root by inserts and
    removes, every split's ratio lies strictly between 0 and 1 (it is 1/2),
    and the tree is strictly binary.  That a split has two children, neither
    [null], is what the type [LayoutNode] says; the functions that build a
    split ([replaceNode] through [??], [remove] through its null tests)
    only ever put a node in [first] and [second].  The count of nodes
    against leaves is the numerical face of it. *)
Theorem reachable_well_formed (root : option LayoutNode) (n : LayoutNode) :
  reachable root -> root = Some n ->
  ratiosSatisfy openUnit n /\
  ratiosSatisfy (fun r => r = (1 # 2)%Q) n /\
  (length (ids n) + 1 = 2 * length (leaves n))%nat.
Proof.
  intros Hreach E.
  assert (Hhalf : ratiosSatisfy (fun r => r = (1 # 2)%Q) n)
    by by apply (reachable_ratios (fun r => r = (1 # 2)%Q)) with root.
  split; [|split].
  - apply (ratiosSatisfy_impl (fun r => r = (1 # 2)%Q)); [|exact Hhalf].
    intros r ->. split; reflexivity.
  - exact Hhalf.
  - apply ids_leaves_count.
Qed.

Lemma reachable_well_formed_witness :
  reachable afterFirstInsert /\
  ratiosSatisfy openUnit
    (LayoutSplit "split_2" Vertical (1 # 2)
       (LayoutLeaf "leaf_1" (Some 1)) (LayoutLeaf "leaf_0" None)).
Proof.
  assert (H : reachable afterFirstInsert)
    by apply (reach_insert None 1 SideLeft None g0), reach_init.
  split; [exact H|].
  exact (proj1 (reachable_well_formed afterFirstInsert _ H eq_refl)).
Defined.

(** ** Bounds resolver *)

Lemma floorMul_range n r :
  closedUnit r -> 0 <= n -> 0 <= floorMul n r <= n.
Proof.
  intros [Hr0 Hr1] Hn. unfold floorMul.
  assert (Hq : (0 <= inject_Z n)%Q) by (change 0%Q with (inject_Z 0); by rewrite <- Zle_Qle).
  split.
  - change 0 with (Qfloor 0). apply Qfloor_resp_le.
    by apply Qmult_le_0_compat.
  - rewrite <- (Qfloor_Z n) at 2. apply Qfloor_resp_le.
    rewrite <- (Qmult_1_r (inject_Z n)) at 2.
    rewrite !(Qmult_comm (inject_Z n)).
    by apply Qmult_le_compat_r.
Qed.

Lemma node_id_in_ids t : node_id t ∈ ids t.
Proof. destruct t; simpl; apply elem_of_cons; by left. Qed.

Lemma inTree_ids n t : inTree n t -> forall k, k ∈ ids n -> k ∈ ids t.
Proof.
  induction t as [i w|i o r f IHf s IHs]; simpl.
  - by intros [->|[]].
  - intros [->|[H|H]] k Hk; [done| |];
      apply elem_of_cons; right; apply elem_of_app; auto.
Qed.

Lemma inTree_refl t : inTree t t.
Proof. destruct t; simpl; by left. Qed.

Lemma inTree_ratios (P : Q -> Prop) n t :
  inTree n t -> ratiosSatisfy P t -> ratiosSatisfy P n.
Proof.
  induction t as [i w|i o r f IHf s IHs]; simpl.
  - by intros [->|[]].
  - intros [->|[H|H]] Ht; [done| |]; destruct Ht as (Hr & Hf & Hs); auto.
Qed.

Lemma computeBounds_node_other t x y w h m k :
  k ∉ ids t -> computeBounds_node t x y w h m !! k = m !! k.
Proof.
  revert x y w h m.
  induction t as [i l|i o r f IHf s IHs]; intros x y w h m Hk; simpl in Hk.
  - apply not_elem_of_cons in Hk as [Hne _]. simpl.
    by rewrite lookup_insert_ne.
  - apply not_elem_of_cons in Hk as [Hne Hk].
    apply not_elem_of_app in Hk as [Hf Hs].
    destruct o; simpl; rewrite IHs, IHf by done; by rewrite lookup_insert_ne.
Qed.

Lemma computeBounds_node_root t x y w h m :
  NoDup (ids t) ->
  computeBounds_node t x y w h m !! node_id t = Some (mkBounds x y w h).
Proof.
  destruct t as [i l|i o r f s]; simpl; intros Hnd.
  - by rewrite lookup_insert_eq.
  - apply NoDup_cons in Hnd as [Hi _].
    apply not_elem_of_app in Hi as [Hf Hs].
    destruct o; rewrite !computeBounds_node_other by done;
      by rewrite lookup_insert_eq.
Qed.

Lemma computeBounds_node_assigns t x y w h m i o r f s :
  0 <= w -> 0 <= h -> NoDup (ids t) -> ratiosSatisfy closedUnit t ->
  inTree (LayoutSplit i o r f s) t ->
  exists b bf bs, assigned (computeBounds_node t x y w h m) i o r f s b bf bs.
Proof.
  revert x y w h m.
  induction t as [j l|j o' r' tf IHf ts IHs]; intros x y w h m Hw Hh Hnd Hr Hin.
  - simpl in Hin. by destruct Hin as [?|[]].
  - pose proof Hnd as Hnd0.
    simpl in Hnd. apply NoDup_cons in Hnd as [Hj Hnd].
    apply not_elem_of_app in Hj as [Hjf Hjs].
    apply NoDup_app in Hnd as (Hndf & Hdisj & Hnds).
    destruct Hr as (Hr' & Hrf & Hrs).
    assert (Hfw := floorMul_range w r' Hr' Hw).
    assert (Hfh := floorMul_range h r' Hr' Hh).
    simpl in Hin. destruct Hin as [E|[Hin|Hin]].
    + injection E as -> -> -> -> ->.
      exists (mkBounds x y w h).
      destruct o'; simpl; eexists _, _; unfold assigned;
        (split; [rewrite !computeBounds_node_other by done;
                 by rewrite lookup_insert_eq|]);
        (split; [rewrite computeBounds_node_other
                   by (apply Hdisj, node_id_in_ids);
                 by apply computeBounds_node_root|]);
        (split; [by apply computeBounds_node_root|]);
        simpl; done.
    + assert (Hother : forall k, k ∈ ids tf -> k ∉ ids ts) by exact Hdisj.
      assert (Hkeep : forall m' x' y' w' h' b bf bs,
                 assigned m' i o r f s b bf bs ->
                 assigned (computeBounds_node ts x' y' w' h' m') i o r f s b bf bs).
      { intros m' x' y' w' h' b bf bs (H1 & H2 & H3 & H4).
        unfold assigned. rewrite !computeBounds_node_other; [done|..];
          apply Hother.
        - apply (inTree_ids _ _ Hin). simpl. apply elem_of_cons; right.
          apply elem_of_app; right. apply node_id_in_ids.
        - apply (inTree_ids _ _ Hin). simpl. apply elem_of_cons; right.
          apply elem_of_app; left. apply node_id_in_ids.
        - apply (inTree_ids _ _ Hin). simpl. apply elem_of_cons. by left. }
      destruct o'; simpl.
      * destruct (IHf x y (floorMul w r') h
                    (<[j:=mkBounds x y w h]> m)) as (b & bf & bs & Ha);
          [lia|lia|done|done|done|].
        exists b, bf, bs. by apply Hkeep.
      * destruct (IHf x y w (floorMul h r')
                    (<[j:=mkBounds x y w h]> m)) as (b & bf & bs & Ha);
          [lia|lia|done|done|done|].
        exists b, bf, bs. by apply Hkeep.
    + destruct o'; simpl; apply IHs; try done; lia.
Qed.

Lemma splitsInto_tiles o r b bf bs :
  closedUnit r -> 0 <= bwidth b -> 0 <= bheight b -> splitsInto o r b bf bs ->
  (forall px py, covers b px py <-> covers bf px py \/ covers bs px py) /\
  (forall px py, ~ (covers bf px py /\ covers bs px py)).
Proof.
  intros Hr Hw Hh Hs.
  assert (Hfw := floorMul_range (bwidth b) r Hr Hw).
  assert (Hfh := floorMul_range (bheight b) r Hr Hh).
  destruct o; destruct Hs as [-> ->]; unfold covers; simpl;
    split; intros px py; lia.
Qed.

(** Contexts: ids, and the rectangle that reaches the hole. *)
Lemma floorMul_half n : floorMul n (1 # 2) = n / 2.
Proof. unfold floorMul, Qfloor. simpl. by rewrite Z.mul_1_r. Qed.

Lemma ids_plug c n : ids (plug c n) ≡ₚ ctxIds c ++ ids n.
Proof.
  induction c as [|i o r c IH s|i o r f c IH]; simpl; [done| |];
    rewrite IH; solve_Permutation.
Qed.

Lemma node_id_in_plug c n : node_id n ∈ ids (plug c n).
Proof.
  rewrite ids_plug. apply elem_of_app. right. apply node_id_in_ids.
Qed.

Lemma computeBounds_plug c n x y w h m :
  NoDup (ids (plug c n)) ->
  computeBounds_node (plug c n) x y w h m !! node_id n
  = Some (holeRect c x y w h).
Proof.
  revert x y w h m. induction c as [|i o r c IH s|i o r f c IH];
    intros x y w h m Hnd.
  - by apply computeBounds_node_root.
  - simpl in Hnd. apply NoDup_cons in Hnd as [_ Hnd].
    apply NoDup_app in Hnd as (Hc & Hdisj & _).
    destruct o; simpl;
      (rewrite computeBounds_node_other
         by (apply Hdisj, node_id_in_plug)); by apply IH.
  - simpl in Hnd. apply NoDup_cons in Hnd as [_ Hnd].
    apply NoDup_app in Hnd as (_ & _ & Hc).
    destruct o; simpl; by apply IH.
Qed.

Lemma holeRect_inside c n x y w h :
  ratiosSatisfy closedUnit (plug c n) -> 0 <= w -> 0 <= h ->
  0 <= bwidth (holeRect c x y w h) /\ 0 <= bheight (holeRect c x y w h) /\
  (forall px py, covers (holeRect c x y w h) px py ->
                 covers (mkBounds x y w h) px py).
Proof.
  revert x y w h. induction c as [|i o r c IH s|i o r f c IH];
    intros x y w h Hr Hw Hh.
  - simpl. auto.
  - destruct Hr as (Hri & Hrc & _).
    assert (Hfw := floorMul_range w r Hri Hw).
    assert (Hfh := floorMul_range h r Hri Hh).
    destruct o; simpl.
    + destruct (IH x y (floorMul w r) h Hrc) as (H1 & H2 & H3); [lia|lia|].
      split; [done|]. split; [done|]. intros px py Hc.
      specialize (H3 px py Hc). unfold covers in *. simpl in *. lia.
    + destruct (IH x y w (floorMul h r) Hrc) as (H1 & H2 & H3); [lia|lia|].
      split; [done|]. split; [done|]. intros px py Hc.
      specialize (H3 px py Hc). unfold covers in *. simpl in *. lia.
  - destruct Hr as (Hri & _ & Hrc).
    assert (Hfw := floorMul_range w r Hri Hw).
    assert (Hfh := floorMul_range h r Hri Hh).
    destruct o; simpl.
    + destruct (IH (x + floorMul w r) y (w - floorMul w r) h Hrc)
        as (H1 & H2 & H3); [lia|lia|].
      split; [done|]. split; [done|]. intros px py Hc.
      specialize (H3 px py Hc). unfold covers in *. simpl in *. lia.
    + destruct (IH x (y + floorMul h r) w (h - floorMul h r) Hrc)
        as (H1 & H2 & H3); [lia|lia|].
      split; [done|]. split; [done|]. intros px py Hc.
      specialize (H3 px py Hc). unfold covers in *. simpl in *. lia.
Qed.

(** C3: for a tree with distinct node ids and ratios in [0,1], laid out in
    a rectangle of non-negative size, the map gives the root the outer
    rectangle itself, and gives every split the rectangle that the splits
    above it carve out of the outer one ([holeRect], of non-negative size
    and inside the outer rectangle) and its two children the rectangles such
    that the first child gets floor(extent * ratio) along the split axis and
    the second the rest, at the offset of the first; the two extents add up
    to the parent's; both children keep the parent's extent on the other
    axis; every pixel of the parent is in one child (no gap) and none is in
    both (no overlap).  The floor is taken of the exact product; at ratio
    1/2, the only ratio the program stores, it is the integer half, as in
    the source's double arithmetic, and the sum, no-gap and no-overlap parts
    only use that the first extent lies between 0 and the parent's. *)
Theorem computeBounds_tiles (t : LayoutNode) (x y w h : Z)
        (m : gmap NodeId Bounds) (i : NodeId) (o : Orientation) (r : Q)
        (f s : LayoutNode) :
  0 <= w -> 0 <= h -> NoDup (ids t) -> ratiosSatisfy closedUnit t ->
  inTree (LayoutSplit i o r f s) t ->
  computeBounds (Some t) x y w h m !! node_id t = Some (mkBounds x y w h) /\
  exists b bf bs,
    computeBounds (Some t) x y w h m !! i = Some b /\
    computeBounds (Some t) x y w h m !! node_id f = Some bf /\
    computeBounds (Some t) x y w h m !! node_id s = Some bs /\
    (forall c, t = plug c (LayoutSplit i o r f s) ->
               b = holeRect c x y w h) /\
    0 <= bwidth b /\ 0 <= bheight b /\
    (forall px py, covers b px py -> covers (mkBounds x y w h) px py) /\
    splitsInto o r b bf bs /\
    match o with
    | Vertical =>
        bx bf = bx b /\ bx bs = bx b + bwidth bf /\
        by_ bf = by_ b /\ by_ bs = by_ b /\
        bwidth bf = floorMul (bwidth b) r /\
        (r = (1 # 2)%Q -> bwidth bf = bwidth b / 2) /\
        bwidth bf + bwidth bs = bwidth b /\
        bheight bf = bheight b /\ bheight bs = bheight b
    | Horizontal =>
        by_ bf = by_ b /\ by_ bs = by_ b + bheight bf /\
        bx bf = bx b /\ bx bs = bx b /\
        bheight bf = floorMul (bheight b) r /\
        (r = (1 # 2)%Q -> bheight bf = bheight b / 2) /\
        bheight bf + bheight bs = bheight b /\
        bwidth bf = bwidth b /\ bwidth bs = bwidth b
    end /\
    (forall px py, covers b px py <-> covers bf px py \/ covers bs px py) /\
    (forall px py, ~ (covers bf px py /\ covers bs px py)).
Proof.
  intros Hw Hh Hnd Hr Hin.
  split; [by apply computeBounds_node_root|].
  destruct (computeBounds_node_assigns t x y w h m i o r f s Hw Hh Hnd Hr Hin)
    as (b & bf & bs & Hb & Hbf & Hbs & Hbw & Hbh & Hsp).
  assert (Hri : closedUnit r).
  { pose proof (inTree_ratios closedUnit _ _ Hin Hr) as Hn. simpl in Hn. tauto. }
  destruct (splitsInto_tiles o r b bf bs Hri Hbw Hbh Hsp) as [Hcov Hdis].
  assert (Hpin : forall c, t = plug c (LayoutSplit i o r f s) ->
                           b = holeRect c x y w h).
  { intros c ->.
    pose proof (computeBounds_plug c (LayoutSplit i o r f s) x y w h m Hnd)
      as Hc.
    simpl in Hc. rewrite Hb in Hc. by injection Hc. }
  assert (Hinside : forall px py, covers b px py ->
                                  covers (mkBounds x y w h) px py).
  { destruct (inTree_plug _ _ Hin) as [c Ec].
    rewrite (Hpin c Ec). rewrite Ec in Hr.
    by destruct (holeRect_inside c _ x y w h Hr Hw Hh) as (_ & _ & H3). }
  exists b, bf, bs. simpl.
  repeat (split; [done|]). split; [|done].
  destruct o; destruct Hsp as [-> ->]; simpl; repeat split; try lia;
    intros ->; apply floorMul_half.
Qed.

Lemma closedUnit_half : closedUnit (1 # 2).
Proof. split; discriminate. Qed.

Lemma computeBounds_tiles_witness :
  0 <= 101 /\ 0 <= 50 /\ NoDup (ids sampleTwo) /\
  ratiosSatisfy closedUnit sampleTwo /\
  inTree sampleTwo sampleTwo /\
  computeBounds (Some sampleTwo) 0 0 101 50 ∅ !! "s"
    = Some (mkBounds 0 0 101 50) /\
  computeBounds (Some sampleTwo) 0 0 101 50 ∅ !! "a"
    = Some (mkBounds 0 0 50 50) /\
  computeBounds (Some sampleTwo) 0 0 101 50 ∅ !! "b"
    = Some (mkBounds 50 0 51 50).
Proof.
  assert (H1 : 0 <= 101) by lia.
  assert (H2 : 0 <= 50) by lia.
  assert (H3 : NoDup (ids sampleTwo)) by by_compute.
  assert (H4 : ratiosSatisfy closedUnit sampleTwo).
  { simpl. split; [exact closedUnit_half|]. split; exact I. }
  assert (H5 : inTree sampleTwo sampleTwo) by apply inTree_refl.
  repeat (split; [assumption|]).
  destruct (computeBounds_tiles sampleTwo 0 0 101 50 ∅ "s" Vertical (1 # 2)
              (LayoutLeaf "a" (Some 1)) (LayoutLeaf "b" (Some 2))
              H1 H2 H3 H4 H5)
    as (Hroot & b & bf & bs & Hb & Hbf & Hbs & Hpin & _ & _ & _ & Hsp & _).
  pose proof (Hpin CHole eq_refl) as Eb. simpl in Eb. subst b.
  destruct Hsp as [Ebf Ebs]. subst bf bs.
  split; [exact Hb|]. split; [exact Hbf|exact Hbs].
Defined.

(** ** Hit tester *)

Lemma outside_false x y w h px py :
  outside x y w h px py = false <->
  x <= px <= x + w /\ y <= py <= y + h.
Proof.
  unfold outside. rewrite !orb_false_iff.
  rewrite !Z.ltb_ge, !Z.gtb_ltb, !Z.ltb_ge. lia.
Qed.

Lemma outside_true x y w h px py :
  outside x y w h px py = true <->
  ~ (x <= px <= x + w /\ y <= py <= y + h).
Proof.
  rewrite <- outside_false. destruct (outside x y w h px py); split; congruence.
Qed.

(** Every point of the closed rectangle hits a leaf. *)
Lemma find_is_Some t x y w h px py :
  outside x y w h px py = false ->
  is_Some (findDeepestNodeAtPoint_node t x y w h px py).
Proof.
  revert x y w h.
  induction t as [i l|i o r f IHf s IHs]; intros x y w h Hout; simpl;
    rewrite Hout; [done|].
  apply outside_false in Hout.
  destruct o.
  - destruct (findDeepestNodeAtPoint_node f x y (floorMul w r) h px py) eqn:E;
      [done|].
    apply IHs, outside_false.
    destruct (outside x y (floorMul w r) h px py) eqn:O.
    + apply outside_true in O. lia.
    + apply IHf in O. rewrite E in O. by destruct O.
  - destruct (findDeepestNodeAtPoint_node f x y w (floorMul h r) px py) eqn:E;
      [done|].
    apply IHs, outside_false.
    destruct (outside x y w (floorMul h r) px py) eqn:O.
    + apply outside_true in O. lia.
    + apply IHf in O. rewrite E in O. by destruct O.
Qed.

(** The hit node is a leaf of the tree. *)
Lemma find_inTree t x y w h px py n :
  findDeepestNodeAtPoint_node t x y w h px py = Some n ->
  inTree n t /\ exists i l, n = LayoutLeaf i l.
Proof.
  revert x y w h.
  induction t as [i l|i o r f IHf s IHs]; intros x y w h; simpl;
    destruct (outside x y w h px py); try discriminate.
  - intros [= <-]. split; [by left|eauto].
  - destruct o.
    + destruct (findDeepestNodeAtPoint_node f x y (floorMul w r) h px py)
        as [c|] eqn:E.
      * intros [= <-]. destruct (IHf _ _ _ _ E). auto.
      * intros H. destruct (IHs _ _ _ _ H). auto.
    + destruct (findDeepestNodeAtPoint_node f x y w (floorMul h r) px py)
        as [c|] eqn:E.
      * intros [= <-]. destruct (IHf _ _ _ _ E). auto.
      * intros H. destruct (IHs _ _ _ _ H). auto.
Qed.

(** [hitLeafBounds] answers exactly when the hit test does, with a rectangle
    that contains the point. *)
Lemma hitLeafBounds_find t x y w h px py :
  match findDeepestNodeAtPoint_node t x y w h px py with
  | Some _ => exists b, hitLeafBounds t x y w h px py = Some b /\ within b px py
  | None => hitLeafBounds t x y w h px py = None
  end.
Proof.
  revert x y w h.
  induction t as [i l|i o r f IHf s IHs]; intros x y w h; simpl;
    destruct (outside x y w h px py) eqn:O; try done.
  - apply outside_false in O. by exists (mkBounds x y w h).
  - destruct o.
    + specialize (IHf x y (floorMul w r) h).
      destruct (findDeepestNodeAtPoint_node f x y (floorMul w r) h px py);
        [done|apply IHs].
    + specialize (IHf x y w (floorMul h r)).
      destruct (findDeepestNodeAtPoint_node f x y w (floorMul h r) px py);
        [done|apply IHs].
Qed.

(** With distinct ids, the map entry of the hit leaf is the rectangle it was
    hit in. *)
Lemma computeBounds_hit t x y w h m px py n b :
  NoDup (ids t) ->
  findDeepestNodeAtPoint_node t x y w h px py = Some n ->
  hitLeafBounds t x y w h px py = Some b ->
  computeBounds_node t x y w h m !! node_id n = Some b.
Proof.
  revert x y w h m.
  induction t as [i l|i o r f IHf s IHs]; intros x y w h m Hnd; simpl;
    destruct (outside x y w h px py); try discriminate.
  - intros [= <-] [= <-]. simpl. by rewrite lookup_insert_eq.
  - apply NoDup_cons in Hnd as [Hi Hnd].
    apply NoDup_app in Hnd as (Hndf & Hdisj & Hnds).
    destruct o.
    + destruct (findDeepestNodeAtPoint_node f x y (floorMul w r) h px py)
        as [c|] eqn:E.
      * intros [= <-] Hb.
        rewrite computeBounds_node_other.
        -- by apply IHf.
        -- apply Hdisj. destruct (find_inTree _ _ _ _ _ _ _ _ E) as [Hin _].
           apply (inTree_ids _ _ Hin), node_id_in_ids.
      * intros Hn Hb. by apply IHs.
    + destruct (findDeepestNodeAtPoint_node f x y w (floorMul h r) px py)
        as [c|] eqn:E.
      * intros [= <-] Hb.
        rewrite computeBounds_node_other.
        -- by apply IHf.
        -- apply Hdisj. destruct (find_inTree _ _ _ _ _ _ _ _ E) as [Hin _].
           apply (inTree_ids _ _ Hin), node_id_in_ids.
      * intros Hn Hb. by apply IHs.
Qed.

(** C4, as stated, fails: in a 100 x 100 rectangle split in two halves, the
    point (50, 10) is on the boundary [x + firstW]; the second child would
    take it, but the first child is asked first, its rectangle [[0, 50]]
    includes its right edge, and the hit test answers with the first
    child's leaf. *)
Lemma boundary_not_second_child :
  50 = 0 + floorMul 100 (1 # 2) /\
  findDeepestNodeAtPoint (Some sampleTwo) 0 0 100 100 50 10
    = Some (LayoutLeaf "a" (Some 1)) /\
  findDeepestNodeAtPoint_node (LayoutLeaf "b" (Some 2))
    (0 + floorMul 100 (1 # 2)) 0 (100 - floorMul 100 (1 # 2)) 100 50 10
    = Some (LayoutLeaf "b" (Some 2)) /\
  findDeepestNodeAtPoint (Some sampleTwo) 0 0 100 100 50 10
    <> findDeepestNodeAtPoint_node (LayoutLeaf "b" (Some 2))
         (0 + floorMul 100 (1 # 2)) 0 (100 - floorMul 100 (1 # 2)) 100 50 10.
Proof. repeat split; try reflexivity. discriminate. Qed.

(** C4, amended: a point of a split's rectangle that lies exactly on the
    boundary between the two children ([px = x + firstW] for a vertical
    split, [py = y + firstH] for a horizontal one) is resolved in the first
    child: the hit test returns what the first child returns, which is a
    leaf of the first child, because a child's rectangle includes its right
    and bottom edges and the first child is tried first. *)
Theorem boundary_hits_first_child (i : NodeId) (r : Q) (f s : LayoutNode)
        (x y w h px py : Z) :
  closedUnit r -> 0 <= w -> 0 <= h ->
  (px = x + floorMul w r -> y <= py <= y + h ->
   exists leaf,
     findDeepestNodeAtPoint_node (LayoutSplit i Vertical r f s) x y w h px py
       = Some leaf /\
     findDeepestNodeAtPoint_node f x y (floorMul w r) h px py = Some leaf /\
     inTree leaf f) /\
  (py = y + floorMul h r -> x <= px <= x + w ->
   exists leaf,
     findDeepestNodeAtPoint_node (LayoutSplit i Horizontal r f s) x y w h px py
       = Some leaf /\
     findDeepestNodeAtPoint_node f x y w (floorMul h r) px py = Some leaf /\
     inTree leaf f).
Proof.
  intros Hr Hw Hh.
  assert (Hfw := floorMul_range w r Hr Hw).
  assert (Hfh := floorMul_range h r Hr Hh).
  split; intros Hp Hq.
  - assert (O : outside x y w h px py = false) by (apply outside_false; lia).
    assert (O' : outside x y (floorMul w r) h px py = false)
      by (apply outside_false; lia).
    destruct (find_is_Some f _ _ _ _ _ _ O') as [leaf E].
    exists leaf. simpl. rewrite O, E.
    split; [done|]. split; [done|]. by destruct (find_inTree _ _ _ _ _ _ _ _ E).
  - assert (O : outside x y w h px py = false) by (apply outside_false; lia).
    assert (O' : outside x y w (floorMul h r) px py = false)
      by (apply outside_false; lia).
    destruct (find_is_Some f _ _ _ _ _ _ O') as [leaf E].
    exists leaf. simpl. rewrite O, E.
    split; [done|]. split; [done|]. by destruct (find_inTree _ _ _ _ _ _ _ _ E).
Qed.

Lemma boundary_hits_first_child_witness :
  closedUnit (1 # 2) /\ 0 <= 100 /\ 50 = 0 + floorMul 100 (1 # 2) /\
  0 <= 10 <= 0 + 100 /\
  exists leaf,
    findDeepestNodeAtPoint_node sampleTwo 0 0 100 100 50 10 = Some leaf /\
    inTree leaf (LayoutLeaf "a" (Some 1)).
Proof.
  assert (H1 : 0 <= 100) by lia.
  assert (H2 : 50 = 0 + floorMul 100 (1 # 2)) by reflexivity.
  assert (H3 : 0 <= 10 <= 0 + 100) by lia.
  split; [exact closedUnit_half|]. repeat (split; [assumption|]).
  destruct (proj1 (boundary_hits_first_child "s" (1 # 2)
                     (LayoutLeaf "a" (Some 1)) (LayoutLeaf "b" (Some 2))
                     0 0 100 100 50 10 closedUnit_half H1 H1) H2 H3)
    as (leaf & E & _ & Hin).
  exists leaf. split; assumption.
Defined.

(** ** Snap resolver *)

Lemma min4_gt a b c d k :
  min4 a b c d > k <-> a > k /\ b > k /\ c > k /\ d > k.
Proof. unfold min4. lia. Qed.

(** Near no viewport edge, the fall-through branch returns [null]. *)
Lemma viewport_branch_none vw vh px py :
  within (mkBounds 0 0 vw vh) px py ->
  minEdgeDistance (mkBounds 0 0 vw vh) px py > SNAP_DISTANCE ->
  (if px <=? SNAP_DISTANCE then
     Returns (Some (mkPreview 0 0 (roundHalf vw) vh None SideLeft))
   else if px >=? vw - SNAP_DISTANCE then
     Returns (Some (mkPreview (roundHalf vw) 0 (roundHalf vw) vh None SideRight))
   else if py <=? SNAP_DISTANCE then
     Returns (Some (mkPreview 0 0 vw (roundHalf vh) None SideTop))
   else if py >=? vh - SNAP_DISTANCE then
     Returns (Some (mkPreview 0 (roundHalf vh) vw (roundHalf vh) None SideBottom))
   else Returns None) = Returns None.
Proof.
  unfold within, minEdgeDistance, SNAP_DISTANCE. simpl.
  intros Hin Hd. apply min4_gt in Hd.
  destruct (Z.leb_spec px 50); [lia|].
  destruct (Z.geb_spec px (vw - 50)); [lia|].
  destruct (Z.leb_spec py 50); [lia|].
  destruct (Z.geb_spec py (vh - 50)); [lia|done].
Qed.

(** C6, as stated, fails: the pointer can leave the viewport during a drag.
    At (-100, 300) over an 800 x 600 viewport with no layout, the nearest
    viewport edge is 100 pixels away, and the resolver proposes the left
    half, since it tests [px <= 50] and not a distance. *)
Lemma snap_far_outside_viewport :
  candidateRect None 800 600 (-100) 300 = mkBounds 0 0 800 600 /\
  minEdgeDistance (mkBounds 0 0 800 600) (-100) 300 = 100 /\
  100 > SNAP_DISTANCE /\
  hitTestForPreview None 800 600 (-100) 300
    = Returns (Some (mkPreview 0 0 400 600 None SideLeft)).
Proof. repeat split; reflexivity. Qed.

(** C6, amended: for a tree with distinct node ids and a point inside the
    candidate rectangle (the hit leaf's, or the viewport when no leaf is
    hit), if the least distance from the point to the rectangle's four edges
    exceeds 50, the resolver returns [null]. *)
Theorem no_snap_beyond_threshold (root : option LayoutNode)
        (vw vh px py : Z) :
  NoDup (idsOf root) ->
  within (candidateRect root vw vh px py) px py ->
  minEdgeDistance (candidateRect root vw vh px py) px py > SNAP_DISTANCE ->
  hitTestForPreview root vw vh px py = Returns None.
Proof.
  intros Hnd Hin Hd. unfold hitTestForPreview.
  destruct root as [t|]; simpl in *.
  - pose proof (hitLeafBounds_find t 0 0 vw vh px py) as Hb.
    destruct (findDeepestNodeAtPoint_node t 0 0 vw vh px py) as [n|] eqn:E.
    + destruct Hb as (b & Hb & _). rewrite Hb in Hin, Hd. simpl in Hin, Hd.
      rewrite (computeBounds_hit t 0 0 vw vh ∅ px py n b Hnd E Hb).
      unfold within in Hin. unfold minEdgeDistance in Hd.
      apply min4_gt in Hd.
      assert (Hm : min4 (px - bx b) (bx b + bwidth b - px)
                        (py - by_ b) (by_ b + bheight b - py) > SNAP_DISTANCE)
        by (apply min4_gt; lia).
      apply Z.gt_lt, Z.gtb_lt in Hm. by rewrite Hm.
    + rewrite Hb in Hin, Hd. simpl in Hin, Hd.
      by apply viewport_branch_none.
  - by apply viewport_branch_none.
Qed.

Lemma no_snap_beyond_threshold_witness :
  NoDup (idsOf (Some sampleTwo)) /\
  within (candidateRect (Some sampleTwo) 800 600 200 300) 200 300 /\
  minEdgeDistance (candidateRect (Some sampleTwo) 800 600 200 300) 200 300
    > SNAP_DISTANCE /\
  hitTestForPreview (Some sampleTwo) 800 600 200 300 = Returns None.
Proof.
  assert (H1 : NoDup (idsOf (Some sampleTwo))) by by_compute.
  assert (H2 : within (candidateRect (Some sampleTwo) 800 600 200 300) 200 300)
    by (vm_compute; repeat split; discriminate).
  assert (H3 : minEdgeDistance (candidateRect (Some sampleTwo) 800 600 200 300)
                 200 300 > SNAP_DISTANCE) by reflexivity.
  repeat (split; [assumption|]).
  exact (no_snap_beyond_threshold (Some sampleTwo) 800 600 200 300 H1 H2 H3).
Defined.

(** [Math.round (n / 2)] against the halves the bounds resolver makes. *)
Lemma roundHalf_even k : roundHalf (2 * k) = k.
Proof.
  unfold roundHalf. symmetry. apply (Z.div_unique_pos _ 2 k 1); lia.
Qed.

Lemma roundHalf_odd k : roundHalf (2 * k + 1) = k + 1.
Proof.
  unfold roundHalf. symmetry. apply (Z.div_unique_pos _ 2 (k + 1) 0); lia.
Qed.

Lemma half_even n : Z.even n = true -> roundHalf n = n / 2 /\ n - n / 2 = n / 2.
Proof.
  intros H. apply Z.even_spec in H as [k ->].
  rewrite roundHalf_even.
  assert (E : 2 * k / 2 = k) by (symmetry; apply (Z.div_unique_pos _ 2 k 0); lia).
  rewrite E. lia.
Qed.

(** On a hit leaf whose width and height are even, the preview is the half
    the specification describes. *)
Lemma preview_even_sizes root vw vh px py b p :
  NoDup (idsOf root) ->
  (exists t, root = Some t /\ hitLeafBounds t 0 0 vw vh px py = Some b) ->
  Z.even (bwidth b) = true -> Z.even (bheight b) = true ->
  hitTestForPreview root vw vh px py = Returns (Some p) ->
  previewRect p = specPreviewRect b (pside p).
Proof.
  intros Hnd (t & -> & Hb) Hw Hh. unfold hitTestForPreview. simpl in *.
  pose proof (hitLeafBounds_find t 0 0 vw vh px py) as Hf.
  destruct (findDeepestNodeAtPoint_node t 0 0 vw vh px py) as [n|] eqn:E;
    [|congruence].
  rewrite (computeBounds_hit t 0 0 vw vh ∅ px py n b Hnd E Hb).
  destruct (half_even _ Hw) as [Ew Ew'], (half_even _ Hh) as [Eh Eh'].
  repeat match goal with
         | |- context [if ?c then _ else _] => destruct c
         end;
    intros [= <-]; unfold previewRect, specPreviewRect; simpl;
    rewrite ?Ew, ?Ew', ?Eh, ?Eh'; reflexivity.
Qed.

(** C5 at a leaf of odd width.  In a 202 x 300 viewport the window leaf of
    the first insert owns [0, 101).  Near its right edge the preview is
    51 wide and starts at 51, one pixel past the leaf, where the second half
    is the remainder, 51 wide from 50; near its left edge the preview is
    51 wide, not floor(101 / 2) = 50. *)
Theorem preview_rounds_up :
  candidateRect afterFirstInsert 202 300 100 150 = mkBounds 0 0 101 300 /\
  hitTestForPreview afterFirstInsert 202 300 100 150
    = Returns (Some (mkPreview 51 0 51 300 (Some "leaf_1") SideRight)) /\
  specPreviewRect (mkBounds 0 0 101 300) SideRight = mkBounds 50 0 51 300 /\
  candidateRect afterFirstInsert 202 300 1 150 = mkBounds 0 0 101 300 /\
  hitTestForPreview afterFirstInsert 202 300 1 150
    = Returns (Some (mkPreview 0 0 51 300 (Some "leaf_1") SideLeft)) /\
  specPreviewRect (mkBounds 0 0 101 300) SideLeft = mkBounds 0 0 50 300.
Proof. repeat split; reflexivity. Qed.

(** * Further properties of the engine *)

(** ** Hit tester and bounds map *)

(** X1: the hit test answers exactly for the points of the closed outer
    rectangle, whatever the ratios, and what it answers is a leaf of the
    tree. *)
Theorem hit_iff_inside (t : LayoutNode) (x y w h px py : Z) :
  (is_Some (findDeepestNodeAtPoint (Some t) x y w h px py) <->
   within (mkBounds x y w h) px py) /\
  (forall n, findDeepestNodeAtPoint (Some t) x y w h px py = Some n ->
             inTree n t /\ exists i l, n = LayoutLeaf i l).
Proof.
  split.
  - unfold within. simpl. rewrite <- outside_false. split.
    + intros [n E]. destruct (outside x y w h px py) eqn:O; [|done].
      destruct t as [|? []]; simpl in E; rewrite O in E; discriminate.
    + apply find_is_Some.
  - intros n E. by apply (find_inTree t x y w h px py).
Qed.

Lemma computeBounds_node_dom t x y w h m k :
  is_Some (computeBounds_node t x y w h m !! k) <->
  k ∈ ids t \/ is_Some (m !! k).
Proof.
  revert x y w h m.
  induction t as [i l|i o r f IHf s IHs]; intros x y w h m.
  - simpl. rewrite lookup_insert_is_Some, list_elem_of_singleton.
    split; [intros [->|[_ H]]|intros [->|H]]; auto.
    destruct (decide (i = k)); auto.
  - assert (Hins : is_Some (<[i:=mkBounds x y w h]> m !! k)
                   <-> k = i \/ is_Some (m !! k)).
    { rewrite lookup_insert_is_Some. split; [intros [->|[_ H]]|intros [->|H]]; auto.
      destruct (decide (i = k)); auto. }
    destruct o; simpl; rewrite IHs, IHf, Hins, elem_of_cons, elem_of_app; tauto.
Qed.

(** X2: after [computeBounds] the map has an entry for an id exactly when
    the id is a node's or had one before; entries of other ids are left as
    they were. *)
Theorem computeBounds_domain (root : option LayoutNode) (x y w h : Z)
        (m : gmap NodeId Bounds) (k : NodeId) :
  (is_Some (computeBounds root x y w h m !! k) <->
   k ∈ idsOf root \/ is_Some (m !! k)) /\
  (k ∉ idsOf root -> computeBounds root x y w h m !! k = m !! k).
Proof.
  destruct root as [t|]; simpl.
  - split; [apply computeBounds_node_dom|apply computeBounds_node_other].
  - split; [|done]. split; [auto|]. intros [H|H]; [|done].
    by apply not_elem_of_nil in H.
Qed.

(** X3: the non-null assertion [map.get(targetNode.id)!] never fails: the
    snap resolver returns on every layout, every viewport and every point,
    distinct ids or not. *)
Theorem hitTestForPreview_returns (root : option LayoutNode)
        (vw vh px py : Z) :
  exists r, hitTestForPreview root vw vh px py = Returns r.
Proof.
  unfold hitTestForPreview. destruct root as [t|]; simpl.
  - destruct (findDeepestNodeAtPoint_node t 0 0 vw vh px py) as [n|] eqn:E.
    + destruct (find_inTree _ _ _ _ _ _ _ _ E) as [Hin _].
      assert (Hk : is_Some (computeBounds_node t 0 0 vw vh ∅ !! node_id n)).
      { apply computeBounds_node_dom. left.
        apply (inTree_ids _ _ Hin), node_id_in_ids. }
      destruct Hk as [b ->].
      repeat match goal with
             | |- context [if ?c then _ else _] => destruct c
             end; eauto.
    + repeat match goal with
             | |- context [if ?c then _ else _] => destruct c
             end; eauto.
  - repeat match goal with
           | |- context [if ?c then _ else _] => destruct c
           end; eauto.
Qed.

(** ** Snap resolver *)


(** X4: on a hit leaf (distinct ids), a returned preview targets that leaf,
    its side is an edge nearest to the point, that distance is at most 50,
    and among equally near edges the order left, right, top, bottom
    decides. *)
Theorem snap_side_is_nearest (t : LayoutNode) (vw vh px py : Z)
        (b : Bounds) (p : SnapPreview) :
  NoDup (ids t) ->
  hitLeafBounds t 0 0 vw vh px py = Some b ->
  hitTestForPreview (Some t) vw vh px py = Returns (Some p) ->
  (exists n, findDeepestNodeAtPoint (Some t) 0 0 vw vh px py = Some n /\
             targetNodeId p = Some (node_id n)) /\
  sideDistance b (pside p) px py = minEdgeDistance b px py /\
  minEdgeDistance b px py <= SNAP_DISTANCE /\
  (forall s', sideDistance b s' px py = minEdgeDistance b px py ->
              (sideRank (pside p) <= sideRank s')%nat).
Proof.
  intros Hnd Hb. unfold hitTestForPreview. simpl.
  pose proof (hitLeafBounds_find t 0 0 vw vh px py) as Hf.
  destruct (findDeepestNodeAtPoint_node t 0 0 vw vh px py) as [n|] eqn:E;
    [|congruence].
  destruct Hf as (b' & Hb' & Hin). assert (b' = b) as -> by congruence.
  rewrite (computeBounds_hit t 0 0 vw vh ∅ px py n b Hnd E Hb).
  unfold within in Hin. unfold minEdgeDistance, min4, SNAP_DISTANCE.
  split_ifs; intros [= <-]; simpl;
    (split; [by exists n|]); (split; [lia|]); (split; [lia|]);
    intros [] Hs; simpl in *; lia.
Qed.

Lemma snap_side_is_nearest_witness :
  NoDup (ids sampleTwo) /\
  hitLeafBounds sampleTwo 0 0 800 600 790 300 = Some (mkBounds 400 0 400 600) /\
  hitTestForPreview (Some sampleTwo) 800 600 790 300
    = Returns (Some (mkPreview 600 0 200 600 (Some "b") SideRight)) /\
  sideDistance (mkBounds 400 0 400 600) SideRight 790 300
    = minEdgeDistance (mkBounds 400 0 400 600) 790 300.
Proof.
  assert (H1 : NoDup (ids sampleTwo)) by by_compute.
  assert (H2 : hitLeafBounds sampleTwo 0 0 800 600 790 300
               = Some (mkBounds 400 0 400 600)) by reflexivity.
  assert (H3 : hitTestForPreview (Some sampleTwo) 800 600 790 300
               = Returns (Some (mkPreview 600 0 200 600 (Some "b") SideRight)))
    by reflexivity.
  repeat (split; [assumption|]).
  exact (proj1 (proj2 (snap_side_is_nearest sampleTwo 800 600 790 300
                         _ _ H1 H2 H3))).
Defined.

(** X5: the converse of the threshold rule.  For distinct ids and a point
    inside the candidate rectangle, a least edge distance of at most 50
    always gives a preview. *)
Theorem snap_near_edge (root : option LayoutNode) (vw vh px py : Z) :
  NoDup (idsOf root) ->
  within (candidateRect root vw vh px py) px py ->
  minEdgeDistance (candidateRect root vw vh px py) px py <= SNAP_DISTANCE ->
  exists p, hitTestForPreview root vw vh px py = Returns (Some p).
Proof.
  intros Hnd Hin Hd. unfold hitTestForPreview.
  assert (Hview : within (mkBounds 0 0 vw vh) px py ->
                  minEdgeDistance (mkBounds 0 0 vw vh) px py <= SNAP_DISTANCE ->
                  exists p,
                    (if px <=? SNAP_DISTANCE then
                       Returns (Some (mkPreview 0 0 (roundHalf vw) vh None SideLeft))
                     else if px >=? vw - SNAP_DISTANCE then
                       Returns (Some (mkPreview (roundHalf vw) 0 (roundHalf vw)
                                        vh None SideRight))
                     else if py <=? SNAP_DISTANCE then
                       Returns (Some (mkPreview 0 0 vw (roundHalf vh) None SideTop))
                     else if py >=? vh - SNAP_DISTANCE then
                       Returns (Some (mkPreview 0 (roundHalf vh) vw (roundHalf vh)
                                        None SideBottom))
                     else Returns None) = Returns (Some p)).
  { unfold within, minEdgeDistance, min4, SNAP_DISTANCE. simpl. intros Hi Hm.
    split_ifs; eauto. lia. }
  destruct root as [t|]; simpl in *; [|by apply Hview].
  pose proof (hitLeafBounds_find t 0 0 vw vh px py) as Hb.
  destruct (findDeepestNodeAtPoint_node t 0 0 vw vh px py) as [n|] eqn:E.
  - destruct Hb as (b & Hb & _). rewrite Hb in Hin, Hd. simpl in Hin, Hd.
    rewrite (computeBounds_hit t 0 0 vw vh ∅ px py n b Hnd E Hb).
    unfold within in Hin. unfold minEdgeDistance, min4, SNAP_DISTANCE in *.
    split_ifs; eauto. lia.
  - rewrite Hb in Hin, Hd. by apply Hview.
Qed.

Lemma snap_near_edge_witness :
  NoDup (idsOf None) /\
  within (candidateRect None 800 600 30 300) 30 300 /\
  minEdgeDistance (candidateRect None 800 600 30 300) 30 300 <= SNAP_DISTANCE /\
  exists p, hitTestForPreview None 800 600 30 300 = Returns (Some p).
Proof.
  assert (H1 : NoDup (idsOf None)) by apply NoDup_nil_2.
  assert (H2 : within (candidateRect None 800 600 30 300) 30 300)
    by (vm_compute; repeat split; discriminate).
  assert (H3 : minEdgeDistance (candidateRect None 800 600 30 300) 30 300
               <= SNAP_DISTANCE) by (vm_compute; discriminate).
  repeat (split; [assumption|]).
  exact (snap_near_edge None 800 600 30 300 H1 H2 H3).
Defined.

(** X6: over a non-empty layout, a pointer inside the viewport always
    lands on a leaf, so a returned preview names a node of the tree; the
    whole-tree snap ([targetNodeId] null) is only offered when the pointer
    is outside the viewport. *)
Theorem inside_viewport_targets_leaf (t : LayoutNode) (vw vh px py : Z)
        (p : SnapPreview) :
  within (mkBounds 0 0 vw vh) px py ->
  hitTestForPreview (Some t) vw vh px py = Returns (Some p) ->
  exists i, targetNodeId p = Some i /\ i ∈ ids t.
Proof.
  unfold within. simpl. intros Hin%outside_false.
  destruct (find_is_Some t 0 0 vw vh px py Hin) as [n E].
  destruct (find_inTree _ _ _ _ _ _ _ _ E) as [Ht _].
  assert (Hi : node_id n ∈ ids t)
    by (apply (inTree_ids _ _ Ht), node_id_in_ids).
  unfold hitTestForPreview. simpl. rewrite E.
  destruct (computeBounds_node t 0 0 vw vh ∅ !! node_id n) as [b|];
    [|discriminate].
  repeat match goal with
         | |- context [if ?c then _ else _] => destruct c
         end; intros [= <-]; simpl; eauto.
Qed.

Lemma inside_viewport_targets_leaf_witness :
  within (mkBounds 0 0 800 600) 790 300 /\
  hitTestForPreview (Some sampleTwo) 800 600 790 300
    = Returns (Some (mkPreview 600 0 200 600 (Some "b") SideRight)) /\
  exists i, Some "b" = Some i /\ i ∈ ids sampleTwo.
Proof.
  assert (H1 : within (mkBounds 0 0 800 600) 790 300)
    by (vm_compute; repeat split; discriminate).
  assert (H2 : hitTestForPreview (Some sampleTwo) 800 600 790 300
               = Returns (Some (mkPreview 600 0 200 600 (Some "b") SideRight)))
    by reflexivity.
  repeat (split; [assumption|]).
  exact (inside_viewport_targets_leaf sampleTwo 800 600 790 300 _ H1 H2).
Defined.

(** ** Insert *)

Lemma droppedOn_leaves win side old g :
  leaves (droppedOn win side old g).1
  = if newFirstIsWindow side then Some win :: leaves old
    else leaves old ++ [Some win].
Proof. by destruct side. Qed.

Lemma replaceNode_node_Some win side t tid g :
  exists n g', replaceNode_node win side t tid g = (Some n, g').
Proof.
  destruct (replaceNode_node_ratios (fun _ => True) I win side t tid g)
    as (n & g' & E & _); [|by exists n, g'].
  induction t; simpl; auto.
Qed.

Lemma droppedOn_has_window win side old g :
  Some win ∈ leaves (droppedOn win side old g).1.
Proof.
  rewrite droppedOn_leaves. destruct (newFirstIsWindow side).
  - apply elem_of_cons. by left.
  - apply elem_of_app. right. apply elem_of_cons. by left.
Qed.

Lemma replaceNode_places win side t tid g :
  tid ∈ ids t ->
  exists n g', replaceNode_node win side t tid g = (Some n, g') /\
               Some win ∈ leaves n.
Proof.
  revert g. induction t as [i w|i o r f IHf s IHs]; intros g Hin;
    cbn [replaceNode_node node_id]; destruct (String.eqb_spec i tid) as [->|Hne].
  - destruct w as [a|].
    + unfold gbind. rewrite wrapWithWindow_droppedOn.
      pose proof (droppedOn_has_window win side (LayoutLeaf tid (Some a)) g).
      destruct (droppedOn win side (LayoutLeaf tid (Some a)) g) as [n g'].
      by exists n, g'.
    + exists (LayoutLeaf tid (Some win)), g. split; [done|].
      simpl. apply elem_of_cons. by left.
  - simpl in Hin. apply list_elem_of_singleton in Hin. congruence.
  - unfold gbind. rewrite wrapWithWindow_droppedOn.
    pose proof (droppedOn_has_window win side (LayoutSplit tid o r f s) g).
    destruct (droppedOn win side (LayoutSplit tid o r f s) g) as [n g'].
    by exists n, g'.
  - simpl in Hin. apply elem_of_cons in Hin as [->|Hin]; [done|].
    unfold gbind. apply elem_of_app in Hin as [Hf|Hs].
    + destruct (IHf g Hf) as (f' & g1 & Ef & Wf). rewrite Ef.
      destruct (replaceNode_node_Some win side s tid g1) as (s' & g2 & Es).
      rewrite Es. exists (LayoutSplit i o r f' s'), g2. split; [done|].
      simpl. apply elem_of_app. by left.
    + destruct (replaceNode_node_Some win side f tid g) as (f' & g1 & Ef).
      rewrite Ef. destruct (IHs g1 Hs) as (s' & g2 & Es & Ws). rewrite Es.
      exists (LayoutSplit i o r f' s'), g2. split; [done|].
      simpl. apply elem_of_app. by right.
Qed.

Lemma insert_places win side target root g :
  (forall tid, target = Some tid -> tid ∈ idsOf root) ->
  Some win ∈ leavesOf (run (insertIntoLayout win side target root) g).
Proof.
  intros Htgt. unfold run, insertIntoLayout. destruct root as [p|].
  - destruct target as [tid|].
    + destruct (replaceNode_places win side p tid g (Htgt tid eq_refl))
        as (n & g' & E & W).
      unfold replaceNode, gbind. by rewrite E.
    + unfold gbind. rewrite wrapWithWindow_droppedOn.
      pose proof (droppedOn_has_window win side p g).
      by destruct (droppedOn win side p g).
  - destruct side; simpl; repeat (apply elem_of_cons; (by left) || right).
Qed.

Lemma preview_target_known root vw vh px py p tid :
  hitTestForPreview root vw vh px py = Returns (Some p) ->
  targetNodeId p = Some tid -> tid ∈ idsOf root.
Proof.
  intros Hp Htid.
  unfold hitTestForPreview in Hp. destruct root as [t|]; simpl in *.
  - destruct (findDeepestNodeAtPoint_node t 0 0 vw vh px py) as [n|] eqn:E.
    + destruct (find_inTree _ _ _ _ _ _ _ _ E) as [Ht _].
      assert (Hi : node_id n ∈ ids t)
        by (apply (inTree_ids _ _ Ht), node_id_in_ids).
      destruct (computeBounds_node t 0 0 vw vh ∅ !! node_id n) as [b|];
        [|discriminate].
      revert Hp.
      repeat match goal with
             | |- context [if ?c then _ else _] => destruct c
             end; intros [= <-]; simpl in Htid; congruence.
    + revert Hp.
      repeat match goal with
             | |- context [if ?c then _ else _] => destruct c
             end; intros [= <-]; simpl in Htid; congruence.
  - revert Hp.
    repeat match goal with
           | |- context [if ?c then _ else _] => destruct c
           end; intros [= <-]; simpl in Htid; congruence.
Qed.

(** X7: a drop on a preview the snap resolver returned for the current
    layout always puts the window into the layout, whatever ids [makeId]
    draws: the target the preview names is found. *)
Theorem drop_places_window (root : option LayoutNode) (vw vh px py : Z)
        (p : SnapPreview) (win : Z) (g : IdSource) :
  hitTestForPreview root vw vh px py = Returns (Some p) ->
  Some win ∈ leavesOf
    (run (insertIntoLayout win (pside p) (targetNodeId p) root) g).
Proof.
  intros Hp. apply insert_places. intros tid Htid.
  by apply (preview_target_known root vw vh px py p).
Qed.

Lemma drop_places_window_witness :
  hitTestForPreview (Some sampleTwo) 800 600 790 300
    = Returns (Some (mkPreview 600 0 200 600 (Some "b") SideRight)) /\
  Some 9 ∈ leavesOf
    (run (insertIntoLayout 9 SideRight (Some "b") (Some sampleTwo)) g0).
Proof.
  assert (H : hitTestForPreview (Some sampleTwo) 800 600 790 300
              = Returns (Some (mkPreview 600 0 200 600 (Some "b") SideRight)))
    by reflexivity.
  split; [exact H|].
  exact (drop_places_window (Some sampleTwo) 800 600 790 300 _ 9 g0 H).
Defined.

Lemma occupants_split i o r f s :
  occupants (LayoutSplit i o r f s) = occupants f ++ occupants s.
Proof. unfold occupants. simpl. apply omap_app. Qed.

Lemma droppedOn_occupants win side old g :
  occupants (droppedOn win side old g).1
  = if newFirstIsWindow side then win :: occupants old
    else occupants old ++ [win].
Proof.
  unfold occupants. rewrite droppedOn_leaves.
  destruct (newFirstIsWindow side); [done|]. by rewrite omap_app.
Qed.

Lemma filter_others_droppedOn win side old g :
  filter (fun v => v <> win) (occupants (droppedOn win side old g).1)
  = filter (fun v => v <> win) (occupants old).
Proof.
  rewrite droppedOn_occupants. destruct (newFirstIsWindow side).
  - by rewrite filter_cons_False by tauto.
  - rewrite filter_app, filter_cons_False by tauto. apply app_nil_r.
Qed.

Lemma replaceNode_node_others win side t tid g :
  exists n g', replaceNode_node win side t tid g = (Some n, g') /\
               filter (fun v => v <> win) (occupants n)
               = filter (fun v => v <> win) (occupants t).
Proof.
  revert g. induction t as [i w|i o r f IHf s IHs]; intros g;
    cbn [replaceNode_node node_id]; destruct (String.eqb i tid).
  - destruct w as [a|].
    + unfold gbind. rewrite wrapWithWindow_droppedOn.
      pose proof (filter_others_droppedOn win side (LayoutLeaf i (Some a)) g).
      destruct (droppedOn win side (LayoutLeaf i (Some a)) g) as [n g'].
      by exists n, g'.
    + exists (LayoutLeaf i (Some win)), g. split; [done|].
      unfold occupants. simpl. by rewrite filter_cons_False by tauto.
  - by exists (LayoutLeaf i w), g.
  - unfold gbind. rewrite wrapWithWindow_droppedOn.
    pose proof (filter_others_droppedOn win side (LayoutSplit i o r f s) g).
    destruct (droppedOn win side (LayoutSplit i o r f s) g) as [n g'].
    by exists n, g'.
  - destruct (IHf g) as (f' & g1 & Ef & Rf).
    destruct (IHs g1) as (s' & g2 & Es & Rs).
    exists (LayoutSplit i o r f' s'), g2. unfold gbind. rewrite Ef, Es.
    split; [done|]. by rewrite !occupants_split, !filter_app, Rf, Rs.
Qed.

(** X8: an insert never drops, duplicates or reorders another window:
    apart from the inserted window, the layout holds the same occupants in
    the same order, for every target (found or not) and every tree. *)
Theorem insert_keeps_others (win : Z) (side : Side) (target : option NodeId)
        (root : option LayoutNode) (g : IdSource) :
  filter (fun v => v <> win)
    (occupantsOf (run (insertIntoLayout win side target root) g))
  = filter (fun v => v <> win) (occupantsOf root).
Proof.
  unfold run, insertIntoLayout. destruct root as [p|].
  - destruct target as [tid|].
    + destruct (replaceNode_node_others win side p tid g) as (n & g' & E & R).
      unfold replaceNode, gbind. rewrite E. exact R.
    + unfold gbind. rewrite wrapWithWindow_droppedOn.
      pose proof (filter_others_droppedOn win side p g) as R.
      by destruct (droppedOn win side p g).
  - destruct side; unfold occupantsOf; simpl; by rewrite filter_cons_False by tauto.
Qed.

Lemma droppedOn_ids win side old g :
  ids (droppedOn win side old g).1 ≡ₚ nextIds (Some old) g ++ ids old.
Proof.
  destruct side; simpl; try apply Permutation_swap;
    rewrite <- Permutation_cons_append; apply Permutation_swap.
Qed.

Lemma droppedOn_occupants_perm win side old g :
  occupants (droppedOn win side old g).1 ≡ₚ win :: occupants old.
Proof.
  rewrite droppedOn_occupants. destruct (newFirstIsWindow side); [done|].
  by rewrite <- Permutation_cons_append.
Qed.

(** With distinct ids, [replaceNode] either finds nothing and changes
    nothing, or adds the window once, either in place (an unoccupied leaf,
    same ids) or under a new split (two new ids). *)
Lemma replaceNode_node_effect win side t tid g :
  NoDup (ids t) ->
  exists n g', replaceNode_node win side t tid g = (Some n, g') /\
    (((tid ∉ ids t) /\ n = t /\ g' = g) \/
     (tid ∈ ids t /\ occupants n ≡ₚ win :: occupants t /\
      (ids n = ids t \/ ids n ≡ₚ nextIds (Some t) g ++ ids t))).
Proof.
  revert g. induction t as [i w|i o r f IHf s IHs]; intros g Hnd;
    cbn [replaceNode_node node_id]; destruct (String.eqb_spec i tid) as [->|Hne].
  - destruct w as [a|].
    + unfold gbind. rewrite wrapWithWindow_droppedOn.
      pose proof (droppedOn_ids win side (LayoutLeaf tid (Some a)) g) as Hi.
      pose proof (droppedOn_occupants_perm win side (LayoutLeaf tid (Some a)) g)
        as Ho.
      destruct (droppedOn win side (LayoutLeaf tid (Some a)) g) as [n g'].
      exists n, g'. split; [done|]. right.
      split; [simpl; apply elem_of_cons; by left|]. split; [done|]. by right.
    + exists (LayoutLeaf tid (Some win)), g. split; [done|]. right.
      split; [simpl; apply elem_of_cons; by left|]. split; [done|]. by left.
  - exists (LayoutLeaf i w), g. split; [done|]. left.
    split; [|done]. simpl. rewrite list_elem_of_singleton. congruence.
  - unfold gbind. rewrite wrapWithWindow_droppedOn.
    pose proof (droppedOn_ids win side (LayoutSplit tid o r f s) g) as Hi.
    pose proof (droppedOn_occupants_perm win side (LayoutSplit tid o r f s) g)
      as Ho.
    destruct (droppedOn win side (LayoutSplit tid o r f s) g) as [n g'].
    exists n, g'. split; [done|]. right.
    split; [simpl; apply elem_of_cons; by left|]. split; [done|]. by right.
  - simpl in Hnd. apply NoDup_cons in Hnd as [Hi Hnd].
    apply NoDup_app in Hnd as (Hndf & Hdisj & Hnds).
    unfold gbind.
    destruct (IHf g Hndf) as (f' & g1 & Ef & [(Hnf & -> & ->)|(Hinf & Hof & Hif)]);
      rewrite Ef.
    + destruct (IHs g Hnds)
        as (s' & g2 & Es & [(Hns & -> & ->)|(Hins & Hos & His)]); rewrite Es.
      * exists (LayoutSplit i o r f s), g. split; [done|]. left.
        split; [|done]. simpl. rewrite not_elem_of_cons, not_elem_of_app.
        split; [congruence|done].
      * exists (LayoutSplit i o r f s'), g2. split; [done|]. right.
        split; [simpl; rewrite elem_of_cons, elem_of_app; auto|].
        split.
        -- rewrite !occupants_split, Hos. by rewrite <- Permutation_middle.
        -- simpl in *. destruct His as [->|His]; [by left|right].
           rewrite His. solve_Permutation.
    + rewrite (replaceNode_node_fresh win side s tid g1 (Hdisj tid Hinf)).
      exists (LayoutSplit i o r f' s), g1. split; [done|]. right.
      split; [simpl; rewrite elem_of_cons, elem_of_app; auto|].
      split.
      * by rewrite !occupants_split, Hof.
      * simpl in *. destruct Hif as [->|Hif]; [by left|right].
        rewrite Hif. solve_Permutation.
Qed.

(** The effect of an insert on a layout with distinct ids: nothing at all
    (the target is an id no node has), or the window added once, with the
    same ids or with the drawn ones added. *)
Lemma insertIntoLayout_effect win side target root g :
  NoDup (idsOf root) ->
  (run (insertIntoLayout win side target root) g = root /\
   exists tid, target = Some tid /\ tid ∉ idsOf root) \/
  (occupantsOf (run (insertIntoLayout win side target root) g)
     ≡ₚ win :: occupantsOf root /\
   (idsOf (run (insertIntoLayout win side target root) g) = idsOf root \/
    idsOf (run (insertIntoLayout win side target root) g)
      ≡ₚ nextIds root g ++ idsOf root)).
Proof.
  intros Hnd. unfold run, insertIntoLayout. destruct root as [p|].
  - destruct target as [tid|].
    + destruct (replaceNode_node_effect win side p tid g Hnd)
        as (n & g' & E & [(Hno & -> & _)|(_ & Ho & Hi)]);
        unfold replaceNode, gbind; rewrite E; simpl.
      * left. split; [done|]. by exists tid.
      * right. by split.
    + right. unfold gbind. rewrite wrapWithWindow_droppedOn.
      pose proof (droppedOn_ids win side p g) as Hi.
      pose proof (droppedOn_occupants_perm win side p g) as Ho.
      destruct (droppedOn win side p g) as [n g']. simpl in *.
      split; [done|]. by right.
  - right. split; [by destruct side|]. right.
    destruct side; simpl; solve_Permutation.
Qed.

(** X9: an insert keeps node ids distinct when the ids it draws are new:
    if the drawn ids and the ids of the tree are pairwise distinct, so are
    the ids of the resulting tree. *)
Theorem insert_keeps_ids_distinct (win : Z) (side : Side)
        (target : option NodeId) (root : option LayoutNode) (g : IdSource) :
  NoDup (nextIds root g ++ idsOf root) ->
  NoDup (idsOf (run (insertIntoLayout win side target root) g)).
Proof.
  intros Hnd. pose proof Hnd as Hp. apply NoDup_app in Hp as (_ & _ & Hp).
  destruct (insertIntoLayout_effect win side target root g Hp)
    as [[-> _]|[_ [->| ->]]]; done.
Qed.

Lemma insert_keeps_ids_distinct_witness :
  NoDup (nextIds (Some sampleTwo) g0 ++ idsOf (Some sampleTwo)) /\
  NoDup (idsOf (run (insertIntoLayout 9 SideTop (Some "a") (Some sampleTwo)) g0)).
Proof.
  assert (H : NoDup (nextIds (Some sampleTwo) g0 ++ idsOf (Some sampleTwo)))
    by by_compute.
  split; [exact H|].
  exact (insert_keeps_ids_distinct 9 SideTop (Some "a") (Some sampleTwo) g0 H).
Defined.

(** X10: with distinct node ids and a target that is null or the id of a
    node, an insert adds the window to the layout exactly once: the
    occupants afterwards are the window and the occupants before. *)
Theorem insert_adds_once (win : Z) (side : Side) (target : option NodeId)
        (root : option LayoutNode) (g : IdSource) :
  NoDup (idsOf root) ->
  (forall tid, target = Some tid -> tid ∈ idsOf root) ->
  occupantsOf (run (insertIntoLayout win side target root) g)
  ≡ₚ win :: occupantsOf root.
Proof.
  intros Hnd Htgt.
  destruct (insertIntoLayout_effect win side target root g Hnd)
    as [[_ (tid & E & Hno)]|[Ho _]]; [|exact Ho].
  by destruct (Hno (Htgt tid E)).
Qed.

Lemma insert_adds_once_witness :
  NoDup (idsOf (Some sampleTwo)) /\
  (forall tid, Some "a" = Some tid -> tid ∈ idsOf (Some sampleTwo)) /\
  occupantsOf (run (insertIntoLayout 9 SideTop (Some "a") (Some sampleTwo)) g0)
  ≡ₚ 9 :: occupantsOf (Some sampleTwo).
Proof.
  assert (H1 : NoDup (idsOf (Some sampleTwo))) by by_compute.
  assert (H2 : forall tid, Some "a" = Some tid -> tid ∈ idsOf (Some sampleTwo)).
  { intros tid [= <-]. simpl. apply elem_of_cons. right.
    apply elem_of_cons. by left. }
  split; [exact H1|]. split; [exact H2|].
  exact (insert_adds_once 9 SideTop (Some "a") (Some sampleTwo) g0 H1 H2).
Defined.

(** ** Remove *)

Lemma remove_joinSplit a i o r x y :
  remove a (joinSplit i o r x y) = joinSplit i o r (remove a x) (remove a y).
Proof.
  destruct x as [x|], y as [y|]; simpl; try done.
  - by destruct (remove_node a x).
  - by destruct (remove_node a y).
Qed.

Lemma remove_node_comm a b t :
  remove a (remove_node b t) = remove b (remove_node a t).
Proof.
  induction t as [i l|i o r f IHf s IHs].
  - simpl. destruct (sameWindow l b) eqn:Eb, (sameWindow l a) eqn:Ea; simpl;
      rewrite ?Ea, ?Eb; done.
  - change (remove_node b (LayoutSplit i o r f s))
      with (joinSplit i o r (remove_node b f) (remove_node b s)).
    change (remove_node a (LayoutSplit i o r f s))
      with (joinSplit i o r (remove_node a f) (remove_node a s)).
    by rewrite !remove_joinSplit, IHf, IHs.
Qed.

(** X11: removals commute, so the order in which windows are closed does
    not matter to the layout, and removing the same window again changes
    nothing. *)
Theorem remove_commutes (a b : Z) (root : option LayoutNode) :
  removeWindowFromLayout a (removeWindowFromLayout b root)
  = removeWindowFromLayout b (removeWindowFromLayout a root) /\
  removeWindowFromLayout a (removeWindowFromLayout a root)
  = removeWindowFromLayout a root.
Proof.
  unfold removeWindowFromLayout. split.
  - destruct root as [t|]; [apply remove_node_comm|done].
  - destruct (remove a root) as [n|] eqn:E; [|done].
    apply remove_node_absent.
    assert (Hl : leaves n = filter (fun l => l <> Some a) (leavesOf root))
      by (rewrite <- remove_leaves, E; done).
    rewrite Hl. intros [Hne _]%list_elem_of_filter. by apply Hne.
Qed.

Lemma remove_node_ids w t n :
  remove_node w t = Some n -> ids n `sublist_of` ids t.
Proof.
  revert n. induction t as [i l|i o r f IHf s IHs]; intros n; simpl.
  - destruct (sameWindow l w); [discriminate|]. by intros [= <-].
  - destruct (remove_node w f) as [f'|], (remove_node w s) as [s'|];
      intros [= <-]; simpl.
    + apply sublist_skip, sublist_app; auto.
    + apply sublist_cons, sublist_inserts_r; auto.
    + apply sublist_cons, sublist_inserts_l; auto.
Qed.

(** X12: a remove creates no node: the ids of the result are the ids of the
    tree with some left out, in the same order, so distinct ids stay
    distinct. *)
Theorem remove_keeps_ids (w : Z) (root : option LayoutNode) :
  idsOf (removeWindowFromLayout w root) `sublist_of` idsOf root /\
  (NoDup (idsOf root) -> NoDup (idsOf (removeWindowFromLayout w root))).
Proof.
  assert (H : idsOf (removeWindowFromLayout w root) `sublist_of` idsOf root).
  { unfold removeWindowFromLayout. destruct root as [t|]; simpl; [|done].
    destruct (remove_node w t) as [n|] eqn:E.
    - by apply (remove_node_ids w).
    - apply sublist_nil_l. }
  split; [exact H|]. intros Hnd. by eapply sublist_NoDup.
Qed.

Lemma filter_nil_Forall {A} (P : A -> Prop) `{!forall x, Decision (P x)}
      (l : list A) :
  filter P l = [] <-> Forall (fun x => ~ P x) l.
Proof.
  induction l as [|a l IH]; [by split|].
  rewrite Forall_cons. destruct (decide (P a)) as [Hp|Hp].
  - rewrite filter_cons_True by done. split; [discriminate|tauto].
  - rewrite filter_cons_False by done. rewrite IH. tauto.
Qed.

(** X13: the layout collapses to [null] exactly when every leaf holds the
    removed window; one unoccupied leaf or one other window keeps a tree. *)
Theorem remove_none_iff (w : Z) (root : option LayoutNode) :
  removeWindowFromLayout w root = None <->
  Forall (fun l => l = Some w) (leavesOf root).
Proof.
  unfold removeWindowFromLayout.
  rewrite <- leavesOf_nil, remove_leaves, filter_nil_Forall.
  apply Forall_iff. intros l. destruct (decide (l = Some w)); tauto.
Qed.

(** ** Renderer *)

Lemma pairwiseDisjoint_app l1 l2 :
  pairwiseDisjoint (l1 ++ l2) <->
  pairwiseDisjoint l1 /\ pairwiseDisjoint l2 /\
  Forall (fun a => Forall (disjointRects a) l2) l1.
Proof.
  induction l1 as [|a l1 IH]; simpl.
  - split; [intros H; repeat split; auto|tauto].
  - rewrite Forall_app, IH, Forall_cons. tauto.
Qed.

Lemma elements_inside ws t x y w h :
  ratiosSatisfy closedUnit t -> 0 <= w -> 0 <= h ->
  Forall (fun e => forall px py, covers (rectOf e) px py ->
                                 covers (mkBounds x y w h) px py)
         (nodeToElements_node ws t x y w h).
Proof.
  revert x y w h. induction t as [i [v|]|i o r f IHf s IHs];
    intros x y w h Hr Hw Hh; simpl.
  - destruct (List.find _ ws); [|constructor].
    apply Forall_singleton. by intros px py Hc.
  - constructor.
  - destruct Hr as (Hr & Hf & Hs).
    assert (Hfw := floorMul_range w r Hr Hw).
    assert (Hfh := floorMul_range h r Hr Hh).
    destruct o; apply Forall_app; split.
    + eapply Forall_impl; [apply IHf; [done|lia|lia]|].
      intros e He px py Hc. specialize (He px py Hc).
      unfold covers in *. simpl in *. lia.
    + eapply Forall_impl; [apply IHs; [done|lia|lia]|].
      intros e He px py Hc. specialize (He px py Hc).
      unfold covers in *. simpl in *. lia.
    + eapply Forall_impl; [apply IHf; [done|lia|lia]|].
      intros e He px py Hc. specialize (He px py Hc).
      unfold covers in *. simpl in *. lia.
    + eapply Forall_impl; [apply IHs; [done|lia|lia]|].
      intros e He px py Hc. specialize (He px py Hc).
      unfold covers in *. simpl in *. lia.
Qed.

Lemma elements_disjoint ws t x y w h :
  ratiosSatisfy closedUnit t -> 0 <= w -> 0 <= h ->
  pairwiseDisjoint (map rectOf (nodeToElements_node ws t x y w h)).
Proof.
  revert x y w h. induction t as [i [v|]|i o r f IHf s IHs];
    intros x y w h Hr Hw Hh; simpl.
  - destruct (List.find _ ws); simpl; auto.
  - exact I.
  - destruct Hr as (Hr & Hf & Hs).
    assert (Hfw := floorMul_range w r Hr Hw).
    assert (Hfh := floorMul_range h r Hr Hh).
    destruct o; rewrite map_app; apply pairwiseDisjoint_app.
    + split; [apply IHf; [done|lia|lia]|].
      split; [apply IHs; [done|lia|lia]|].
      pose proof (elements_inside ws f x y (floorMul w r) h Hf) as If.
      pose proof (elements_inside ws s (x + floorMul w r) y
                    (w - floorMul w r) h Hs) as Is.
      apply Forall_map. eapply Forall_impl; [apply If; lia|].
      intros a Ha. apply Forall_map. eapply Forall_impl; [apply Is; lia|].
      intros b Hb px py [Ca Cb]. specialize (Ha px py Ca).
      specialize (Hb px py Cb). unfold covers in *. simpl in *. lia.
    + split; [apply IHf; [done|lia|lia]|].
      split; [apply IHs; [done|lia|lia]|].
      pose proof (elements_inside ws f x y w (floorMul h r) Hf) as If.
      pose proof (elements_inside ws s x (y + floorMul h r) w
                    (h - floorMul h r) Hs) as Is.
      apply Forall_map. eapply Forall_impl; [apply If; lia|].
      intros a Ha. apply Forall_map. eapply Forall_impl; [apply Is; lia|].
      intros b Hb px py [Ca Cb]. specialize (Ha px py Ca).
      specialize (Hb px py Cb). unfold covers in *. simpl in *. lia.
Qed.

(** X14: the tiled windows never overlap and never leave the rectangle
    they are laid out in: for ratios in [0,1] and a rectangle of
    non-negative size, the boxes [nodeToElements] produces are pairwise
    disjoint, and each lies inside the outer rectangle. *)
Theorem rendered_boxes_disjoint (ws : list WindowItem) (t : LayoutNode)
        (x y w h : Z) :
  ratiosSatisfy closedUnit t -> 0 <= w -> 0 <= h ->
  pairwiseDisjoint (map rectOf (nodeToElements ws (Some t) x y w h)) /\
  Forall (fun e => forall px py, covers (rectOf e) px py ->
                                 covers (mkBounds x y w h) px py)
         (nodeToElements ws (Some t) x y w h).
Proof.
  intros Hr Hw Hh. split; [by apply elements_disjoint|by apply elements_inside].
Qed.

Lemma element_keys_in_ids ws t x y w h :
  Forall (fun e => e_key e ∈ ids t) (nodeToElements_node ws t x y w h).
Proof.
  revert x y w h. induction t as [i [v|]|i o r f IHf s IHs];
    intros x y w h; simpl.
  - destruct (List.find _ ws); [|constructor].
    apply Forall_singleton. simpl. apply elem_of_cons. by left.
  - constructor.
  - destruct o; apply Forall_app; split;
      (eapply Forall_impl; [apply IHf || apply IHs|]);
      intros e He; simpl; rewrite elem_of_cons, elem_of_app; auto.
Qed.

Lemma elements_match_bounds ws t x y w h m :
  NoDup (ids t) ->
  Forall (fun e => computeBounds_node t x y w h m !! e_key e = Some (rectOf e))
         (nodeToElements_node ws t x y w h).
Proof.
  revert x y w h m. induction t as [i [v|]|i o r f IHf s IHs];
    intros x y w h m Hnd; simpl.
  - destruct (List.find _ ws); [|constructor].
    apply Forall_singleton. simpl. by rewrite lookup_insert_eq.
  - constructor.
  - apply NoDup_cons in Hnd as [Hi Hnd].
    apply NoDup_app in Hnd as (Hndf & Hdisj & Hnds).
    destruct o; apply Forall_app; split.
    + pose proof (element_keys_in_ids ws f x y (floorMul w r) h) as Hk.
      pose proof (IHf x y (floorMul w r) h (<[i:=mkBounds x y w h]> m) Hndf)
        as Hb.
      rewrite Forall_forall in *. intros e He.
      rewrite computeBounds_node_other; [by apply Hb|]. by apply Hdisj, Hk.
    + by apply IHs.
    + pose proof (element_keys_in_ids ws f x y w (floorMul h r)) as Hk.
      pose proof (IHf x y w (floorMul h r) (<[i:=mkBounds x y w h]> m) Hndf)
        as Hb.
      rewrite Forall_forall in *. intros e He.
      rewrite computeBounds_node_other; [by apply Hb|]. by apply Hdisj, Hk.
    + by apply IHs.
Qed.

(** X15: the renderer and the bounds resolver agree: with distinct ids,
    every box [nodeToElements] draws is the rectangle [computeBounds]
    records under the element's key, so the previews measured on the map
    are measured on what is on screen. *)
Theorem rendered_boxes_match_bounds (ws : list WindowItem) (t : LayoutNode)
        (x y w h : Z) (m : gmap NodeId Bounds) :
  NoDup (ids t) ->
  Forall (fun e => computeBounds (Some t) x y w h m !! e_key e
                   = Some (rectOf e))
         (nodeToElements ws (Some t) x y w h).
Proof. apply elements_match_bounds. Qed.

Lemma rendered_boxes_disjoint_witness :
  ratiosSatisfy closedUnit sampleTwo /\ 0 <= 101 /\ 0 <= 50 /\
  pairwiseDisjoint
    (map rectOf (nodeToElements sampleWindows (Some sampleTwo) 0 0 101 50)).
Proof.
  assert (H1 : ratiosSatisfy closedUnit sampleTwo).
  { simpl. split; [exact closedUnit_half|]. split; exact I. }
  assert (H2 : 0 <= 101) by lia.
  assert (H3 : 0 <= 50) by lia.
  repeat (split; [assumption|]).
  exact (proj1 (rendered_boxes_disjoint sampleWindows sampleTwo 0 0 101 50
                  H1 H2 H3)).
Defined.

Lemma rendered_boxes_match_bounds_witness :
  NoDup (ids sampleTwo) /\
  Forall (fun e => computeBounds (Some sampleTwo) 0 0 101 50 ∅ !! e_key e
                   = Some (rectOf e))
         (nodeToElements sampleWindows (Some sampleTwo) 0 0 101 50).
Proof.
  assert (H : NoDup (ids sampleTwo)) by by_compute.
  split; [exact H|].
  exact (rendered_boxes_match_bounds sampleWindows sampleTwo 0 0 101 50 ∅ H).
Defined.

Lemma find_window ws v :
  match List.find (fun p => w_id p =? v) ws with
  | Some w => w ∈ ws /\ w_id w = v
  | None => v ∉ map w_id ws
  end.
Proof.
  induction ws as [|a ws IH]; simpl; [apply not_elem_of_nil|].
  destruct (Z.eqb_spec (w_id a) v) as [E|E].
  - split; [apply elem_of_cons; by left|done].
  - destruct (List.find _ ws) as [w|].
    + destruct IH as [Hin Hid]. split; [apply elem_of_cons; by right|done].
    + rewrite not_elem_of_cons. by split.
Qed.

Lemma elements_windows ws t x y w h :
  Forall (fun e => e_window e ∈ ws) (nodeToElements_node ws t x y w h) /\
  map (fun e => w_id (e_window e)) (nodeToElements_node ws t x y w h)
    `sublist_of` occupants t.
Proof.
  revert x y w h. induction t as [i [v|]|i o r f IHf s IHs];
    intros x y w h; simpl.
  - pose proof (find_window ws v) as Hf.
    destruct (List.find _ ws) as [a|].
    + destruct Hf as [Hin Hid]. split; [by apply Forall_singleton|].
      unfold occupants. simpl. by rewrite Hid.
    + split; [constructor|apply sublist_nil_l].
  - split; [constructor|done].
  - rewrite occupants_split.
    destruct o; rewrite Forall_app, map_app;
      (split; [split; [apply IHf|apply IHs]|apply sublist_app; [apply IHf|apply IHs]]).
Qed.

Lemma elements_all_occupants ws t x y w h :
  (forall v, v ∈ occupants t -> v ∈ map w_id ws) ->
  map e_key (nodeToElements_node ws t x y w h) = occupiedLeafIds t /\
  map (fun e => w_id (e_window e)) (nodeToElements_node ws t x y w h)
  = occupants t.
Proof.
  revert x y w h. induction t as [i [v|]|i o r f IHf s IHs];
    intros x y w h Hown; simpl.
  - pose proof (find_window ws v) as Hf.
    destruct (List.find _ ws) as [a|].
    + destruct Hf as [_ Hid]. unfold occupants. simpl. by rewrite Hid.
    + destruct Hf. apply Hown. unfold occupants. simpl.
      apply elem_of_cons. by left.
  - done.
  - rewrite occupants_split in *.
    assert (Hf : forall v, v ∈ occupants f -> v ∈ map w_id ws)
      by (intros v Hv; apply Hown, elem_of_app; by left).
    assert (Hs : forall v, v ∈ occupants s -> v ∈ map w_id ws)
      by (intros v Hv; apply Hown, elem_of_app; by right).
    destruct o; rewrite !map_app;
      (split; f_equal; (apply IHf || apply IHs); done).
Qed.

(** X16: the renderer draws windows of the list only, and the ids of the
    windows it draws are occupants of the tree, in leaf order, with some
    possibly left out (a leaf whose window is missing from the list is
    skipped); when every occupant has a window, every occupied leaf is
    drawn, keyed by its id and showing a window with the occupant's id. *)
Theorem rendered_windows (ws : list WindowItem) (t : LayoutNode)
        (x y w h : Z) :
  Forall (fun e => e_window e ∈ ws) (nodeToElements ws (Some t) x y w h) /\
  map (fun e => w_id (e_window e)) (nodeToElements ws (Some t) x y w h)
    `sublist_of` occupants t /\
  ((forall v, v ∈ occupants t -> v ∈ map w_id ws) ->
   map e_key (nodeToElements ws (Some t) x y w h) = occupiedLeafIds t /\
   map (fun e => w_id (e_window e)) (nodeToElements ws (Some t) x y w h)
   = occupants t).
Proof.
  split; [apply elements_windows|]. split; [apply elements_windows|].
  apply elements_all_occupants.
Qed.

(** ** The component's state *)

Lemma elem_of_map {A B} (f : A -> B) (l : list A) (y : B) :
  y ∈ map f l <-> exists x, y = f x /\ x ∈ l.
Proof.
  rewrite list_elem_of_In, in_map_iff. split; intros (x & H1 & H2); exists x.
  - by rewrite list_elem_of_In.
  - by rewrite <- list_elem_of_In.
Qed.

Lemma elem_of_List_filter {A} (f : A -> bool) (l : list A) (x : A) :
  x ∈ List.filter f l <-> x ∈ l /\ f x = true.
Proof. by rewrite !list_elem_of_In, filter_In. Qed.

Lemma omap_filter_others w (l : list (option Z)) :
  omap id (filter (fun o => o <> Some w) l)
  = filter (fun v => v <> w) (omap id l).
Proof.
  induction l as [|[v|] l IH]; [done| |].
  - destruct (decide (v = w)) as [->|Hne].
    + rewrite filter_cons_False by tauto. simpl.
      by rewrite filter_cons_False by tauto.
    + rewrite filter_cons_True by congruence. simpl.
      rewrite filter_cons_True by done. by f_equal.
  - rewrite filter_cons_True by done. done.
Qed.

Lemma remove_occupants w root :
  occupantsOf (removeWindowFromLayout w root)
  = filter (fun v => v <> w) (occupantsOf root).
Proof.
  unfold occupantsOf, removeWindowFromLayout.
  by rewrite remove_leaves, omap_filter_others.
Qed.

(** A map over the windows that keeps every id. *)
Lemma map_keeps_ids (f : WindowItem -> WindowItem) ws :
  (forall w, w_id (f w) = w_id w) -> map w_id (map f ws) = map w_id ws.
Proof.
  intros Hf. rewrite map_map. apply map_ext. exact Hf.
Qed.

Lemma setSnapped_ids windowId flag ws :
  map w_id (setSnapped windowId flag ws) = map w_id ws.
Proof.
  apply map_keeps_ids. intros w. by destruct (w_id w =? windowId).
Qed.

Lemma elem_of_setSnapped windowId flag ws w' :
  w' ∈ setSnapped windowId flag ws ->
  exists w, w ∈ ws /\ w_id w' = w_id w /\
            w_isSnapped w' = (if w_id w =? windowId then flag
                              else w_isSnapped w).
Proof.
  intros (w & -> & Hin)%elem_of_map. exists w. split; [done|].
  by destruct (w_id w =? windowId).
Qed.

Lemma setSnapped_has windowId flag ws w :
  w ∈ ws ->
  exists w', w' ∈ setSnapped windowId flag ws /\ w_id w' = w_id w /\
             w_isSnapped w' = (if w_id w =? windowId then flag
                               else w_isSnapped w).
Proof.
  intros Hin.
  eexists. split; [apply elem_of_map; eexists; split; [reflexivity|exact Hin]|].
  by destruct (w_id w =? windowId).
Qed.

Lemma initial_consistent vw vh : Consistent (initialState vw vh).
Proof.
  split; simpl; try apply NoDup_nil_2; try done;
    intros x Hx; by apply not_elem_of_nil in Hx.
Qed.

Lemma create_consistent now rx ry st :
  now ∉ map w_id (windows st) -> Consistent st ->
  Consistent (createWindow now rx ry st).
Proof.
  intros Hnew [Hw Hn Ho Hfl Hown Hd Hp]. split; simpl; try done.
  - rewrite map_app. apply NoDup_app. split; [done|]. split.
    + intros x Hx. simpl. rewrite list_elem_of_singleton. congruence.
    + apply NoDup_singleton.
  - intros w [Hin|Hin%list_elem_of_singleton]%elem_of_app; [by apply Hfl|].
    subst w. simpl. split; [discriminate|]. intros Hocc.
    by destruct (Hnew (Hown _ Hocc)).
  - intros v Hv. rewrite map_app. apply elem_of_app. left. by apply Hown.
  - intros d Ed. destruct (Hd d Ed) as (w & Hin & Hw').
    exists w. split; [apply elem_of_app; by left|done].
Qed.

Lemma down_consistent cx cy rl rt w st :
  w ∈ floatingElements st -> Consistent st ->
  Consistent (onMouseDownWindow cx cy rl rt w st).
Proof.
  intros [Hin Hfloat]%elem_of_List_filter [Hw Hn Ho Hfl Hown Hd Hp].
  split; simpl; try done.
  - intros d [= <-]. exists w. simpl. split; [done|]. split; [done|].
    by destruct (w_isSnapped w).
  - intros p Ep. destruct (Hp p Ep) as [_ Ht]. split; [by eexists|done].
Qed.

Lemma resize_consistent w h st :
  Consistent st -> Consistent (onResize w h st).
Proof. intros [Hw Hn Ho Hfl Hown Hd Hp]. by split. Qed.

Lemma move_consistent cx cy st st' :
  onMove cx cy st = Returns st' -> Consistent st -> Consistent st'.
Proof.
  unfold onMove. intros Hmove Hc.
  destruct (dragging st) as [d|] eqn:Ed; [|by injection Hmove as <-].
  destruct (hitTestForPreview (rootNode st) (viewportW st) (viewportH st) cx cy)
    as [|preview] eqn:Eh; [discriminate|].
  injection Hmove as <-.
  destruct Hc as [Hw Hn Ho Hfl Hown Hd Hp].
  set (f := fun w : WindowItem =>
              if negb (w_id w =? dragWindowId d) then w
              else mkWindow (w_id w) (w_title w) (w_color w)
                     (clamp (inject_Z cx - dragOffsetX d)%Q
                            (inject_Z (viewportW st - w_width w)))
                     (clamp (inject_Z cy - dragOffsetY d)%Q
                            (inject_Z (viewportH st - w_height w)))
                     (w_width w) (w_height w) (w_isSnapped w)).
  assert (Hid : forall w, w_id (f w) = w_id w)
    by (intros w; unfold f; by destruct (negb _)).
  assert (Hflag : forall w, w_isSnapped (f w) = w_isSnapped w)
    by (intros w; unfold f; by destruct (negb _)).
  split; simpl; fold f.
  - by rewrite map_keeps_ids.
  - done.
  - done.
  - intros w' (w & -> & Hin)%elem_of_map. rewrite Hid, Hflag. by apply Hfl.
  - intros v Hv. rewrite map_keeps_ids by done. by apply Hown.
  - intros d' [= <-].
    destruct (Hd d Ed) as (w & Hin & Hwid & Hwf).
    exists (f w). rewrite Hid, Hflag. split; [|done].
    apply elem_of_map. by exists w.
  - intros p ->. split; [by eexists|].
    intros tid Htid. by apply (preview_target_known _ _ _ _ _ _ _ Eh).
Qed.

Lemma up_consistent g st :
  NoDup (nextIds (rootNode st) g ++ idsOf (rootNode st)) ->
  Consistent st -> Consistent (onUp g st).
Proof.
  intros Hfresh [Hw Hn Ho Hfl Hown Hd Hp]. unfold onUp.
  destruct (dragging st) as [d|] eqn:Ed; [|by split].
  destruct (snapPreview st) as [p|] eqn:Ep; [|by split].
  destruct (Hd d eq_refl) as (w0 & Hin0 & Hid0 & Hfl0).
  destruct (Hp p eq_refl) as [_ Htgt].
  assert (Hnew : dragWindowId d ∉ occupantsOf (rootNode st)).
  { rewrite <- Hid0. intros Hocc. apply (Hfl w0 Hin0) in Hocc. congruence. }
  destruct (insertIntoLayout_effect (dragWindowId d) (pside p) (targetNodeId p)
              (rootNode st) g Hn)
    as [[_ (tid & E & Hno)]|[Hocc Hids]]; [by destruct (Hno (Htgt tid E))|].
  split; simpl.
  - by rewrite setSnapped_ids.
  - destruct Hids as [->| ->]; done.
  - rewrite Hocc. by apply NoDup_cons.
  - intros w' (w & Hin & Hid & Hflag)%elem_of_setSnapped.
    rewrite Hocc, Hid, Hflag, elem_of_cons.
    destruct (Z.eqb_spec (w_id w) (dragWindowId d)) as [E|E].
    + split; auto.
    + rewrite (Hfl w Hin). split; [auto|]. by intros [?|?].
  - intros v. rewrite Hocc, setSnapped_ids, elem_of_cons.
    intros [->|Hv]; [|by apply Hown].
    rewrite <- Hid0. apply elem_of_map. by exists w0.
  - discriminate.
  - discriminate.
Qed.

Lemma NoDup_map_List_filter {A B} (f : A -> B) (g : A -> bool) (l : list A) :
  NoDup (map f l) -> NoDup (map f (List.filter g l)).
Proof.
  induction l as [|a l IH]; simpl; [done|].
  intros [Ha Hl]%NoDup_cons. destruct (g a); simpl; [|auto].
  apply NoDup_cons. split; [|auto].
  intros (x & E & [Hx _]%elem_of_List_filter)%elem_of_map.
  apply Ha, elem_of_map. by exists x.
Qed.

Lemma removeWindowFromLayout_ids w root :
  idsOf (removeWindowFromLayout w root) `sublist_of` idsOf root.
Proof.
  unfold removeWindowFromLayout. destruct root as [t|]; simpl; [|done].
  destruct (remove_node w t) as [n|] eqn:E.
  - by apply (remove_node_ids w).
  - apply sublist_nil_l.
Qed.

Lemma delete_consistent windowId st :
  dragging st = None -> Consistent st -> Consistent (deleteWindow windowId st).
Proof.
  intros Hnodrag [Hw Hn Ho Hfl Hown Hd Hp]. split; simpl.
  - apply NoDup_map_List_filter. by rewrite setSnapped_ids.
  - eapply sublist_NoDup; [exact Hn|apply removeWindowFromLayout_ids].
  - rewrite remove_occupants. by apply NoDup_filter.
  - intros w' [(w & Hin & Hid & Hflag)%elem_of_setSnapped Hkeep]%elem_of_List_filter.
    rewrite remove_occupants, list_elem_of_filter.
    apply negb_true_iff in Hkeep. rewrite Hid in Hkeep. rewrite Hkeep in Hflag.
    apply Z.eqb_neq in Hkeep. rewrite Hflag, Hid, (Hfl w Hin). tauto.
  - intros v. rewrite remove_occupants, list_elem_of_filter.
    intros [Hne (w & -> & Hin)%Hown%elem_of_map].
    destruct (setSnapped_has windowId false _ _ Hin) as (w' & Hin' & Hid' & _).
    apply elem_of_map. exists w'. split; [done|].
    apply elem_of_List_filter. split; [done|].
    apply negb_true_iff, Z.eqb_neq. congruence.
  - rewrite Hnodrag. discriminate.
  - intros p Ep. destruct (Hp p Ep) as [[d Ed] _]. congruence.
Qed.

(** X17: in every state the component can reach, the window ids are
    distinct, the node ids are distinct, no window occupies two leaves, a
    window is flagged snapped exactly when a leaf holds it, every occupant
    of the layout is a window of the list, the dragged window exists and is
    floating, and a pending preview names a node of the current tree. *)
Theorem app_consistent (st : AppState) : appReachable st -> Consistent st.
Proof.
  induction 1 as [vw vh|st st' Hreach IH Hstep].
  - apply initial_consistent.
  - destruct Hstep.
    + by apply create_consistent.
    + by apply down_consistent.
    + by eapply move_consistent.
    + by apply up_consistent.
    + by apply delete_consistent.
    + by apply resize_consistent.
Qed.

Lemma app_consistent_witness :
  appReachable (createWindow 1 0 0 (initialState 800 600)) /\
  NoDup (map w_id (windows (createWindow 1 0 0 (initialState 800 600)))).
Proof.
  assert (H : appReachable (createWindow 1 0 0 (initialState 800 600))).
  { eapply app_step; [apply app_init|].
    apply step_create. simpl. apply not_elem_of_nil. }
  split; [exact H|].
  exact (cons_window_ids _ (app_consistent _ H)).
Defined.

Lemma List_filter_partition {A} (f : A -> bool) (l : list A) :
  List.filter f l ++ List.filter (fun x => negb (f x)) l ≡ₚ l.
Proof.
  induction l as [|a l IH]; simpl; [done|].
  destruct (f a); simpl.
  - by rewrite IH.
  - by rewrite <- Permutation_middle, IH.
Qed.

Lemma NoDup_map_inj {A B} (f : A -> B) (l : list A) x y :
  NoDup (map f l) -> x ∈ l -> y ∈ l -> f x = f y -> x = y.
Proof.
  induction l as [|a l IH]; simpl; [by intros _ ?%not_elem_of_nil|].
  intros [Ha Hl]%NoDup_cons [->|Hx]%elem_of_cons [->|Hy]%elem_of_cons E.
  - done.
  - destruct Ha. apply elem_of_map. by exists y.
  - destruct Ha. apply elem_of_map. by exists x.
  - by apply IH.
Qed.

Lemma NoDup_of_map {A B} (f : A -> B) (l : list A) :
  NoDup (map f l) -> NoDup l.
Proof.
  induction l as [|a l IH]; simpl; [constructor|].
  intros [Ha Hl]%NoDup_cons. apply NoDup_cons. split; [|auto].
  intros Hin. apply Ha, elem_of_map. by exists a.
Qed.

Lemma NoDup_List_filter {A} (f : A -> bool) (l : list A) :
  NoDup l -> NoDup (List.filter f l).
Proof.
  induction l as [|a l IH]; simpl; [done|].
  intros [Ha Hl]%NoDup_cons. destruct (f a); [|auto].
  apply NoDup_cons. split; [|auto].
  intros [Hin _]%elem_of_List_filter. by apply Ha.
Qed.

(** X18: in a consistent state every window is on screen exactly once:
    the windows shown in the tiles together with the windows drawn floating
    are the windows of the list, each one time. *)
Theorem every_window_shown_once (st : AppState) :
  Consistent st ->
  map e_window (snappedElements st) ++ floatingElements st ≡ₚ windows st.
Proof.
  intros [Hw Hn Ho Hfl Hown Hd Hp].
  rewrite <- (List_filter_partition w_isSnapped (windows st)).
  apply Permutation_app; [|done].
  assert (Hshown : Forall (fun e => e_window e ∈ windows st)
                          (snappedElements st) /\
                   map (fun e => w_id (e_window e)) (snappedElements st)
                   = occupantsOf (rootNode st)).
  { unfold snappedElements, occupantsOf in *.
    destruct (rootNode st) as [t|]; simpl in *; [|by split].
    split; [apply elements_windows|by apply elements_all_occupants]. }
  destruct Hshown as [Hin Hids].
  assert (Hids' : map w_id (map e_window (snappedElements st))
                  = occupantsOf (rootNode st)) by (by rewrite map_map).
  apply NoDup_Permutation.
  - apply (NoDup_of_map w_id). by rewrite Hids'.
  - by apply NoDup_List_filter, (NoDup_of_map w_id).
  - intros x. rewrite elem_of_List_filter. split.
    + intros Hx.
      assert (Hxw : x ∈ windows st).
      { apply elem_of_map in Hx as (e & -> & He).
        rewrite Forall_forall in Hin. by apply Hin. }
      split; [done|]. apply (Hfl x Hxw). rewrite <- Hids'.
      apply elem_of_map. by exists x.
    + intros [Hx Hflag]. apply (Hfl x Hx) in Hflag.
      rewrite <- Hids' in Hflag.
      apply elem_of_map in Hflag as (y & E & Hy).
      assert (Hyw : y ∈ windows st).
      { apply elem_of_map in Hy as (e & -> & He).
        rewrite Forall_forall in Hin. by apply Hin. }
      by rewrite (NoDup_map_inj w_id (windows st) x y Hw Hx Hyw E).
Qed.

Lemma every_window_shown_once_witness :
  Consistent (createWindow 1 0 0 (initialState 800 600)) /\
  map e_window (snappedElements (createWindow 1 0 0 (initialState 800 600)))
  ++ floatingElements (createWindow 1 0 0 (initialState 800 600))
  ≡ₚ windows (createWindow 1 0 0 (initialState 800 600)).
Proof.
  assert (H : Consistent (createWindow 1 0 0 (initialState 800 600))).
  { apply create_consistent; [apply not_elem_of_nil|apply initial_consistent]. }
  split; [exact H|].
  exact (every_window_shown_once _ H).
Defined.

Lemma filter_setSnapped windowId flag ws :
  List.filter (fun w => negb (w_id w =? windowId)) (setSnapped windowId flag ws)
  = List.filter (fun w => negb (w_id w =? windowId)) ws.
Proof.
  induction ws as [|a ws IH]; simpl; [done|].
  destruct (Z.eqb_spec (w_id a) windowId) as [E|E]; simpl.
  - apply Z.eqb_eq in E. by rewrite E.
  - apply Z.eqb_neq in E. rewrite E. simpl. by f_equal.
Qed.

(** X19: closing a window removes it from the list and from the layout and
    touches nothing else: the other windows stay as they were, flags
    included, in the same order, the other occupants stay in the layout in
    the same order, and the viewport, the drag and the preview are kept. *)
Theorem deleteWindow_effect (windowId : Z) (st : AppState) :
  windows (deleteWindow windowId st)
  = List.filter (fun w => negb (w_id w =? windowId)) (windows st) /\
  (windowId ∉ map w_id (windows (deleteWindow windowId st))) /\
  occupantsOf (rootNode (deleteWindow windowId st))
  = filter (fun v => v <> windowId) (occupantsOf (rootNode st)) /\
  (windowId ∉ occupantsOf (rootNode (deleteWindow windowId st))) /\
  (viewportW (deleteWindow windowId st), viewportH (deleteWindow windowId st),
   dragging (deleteWindow windowId st), snapPreview (deleteWindow windowId st))
  = (viewportW st, viewportH st, dragging st, snapPreview st).
Proof.
  simpl. rewrite filter_setSnapped, remove_occupants.
  repeat split.
  - intros (w & E & [_ Hk]%elem_of_List_filter)%elem_of_map.
    apply negb_true_iff, Z.eqb_neq in Hk. congruence.
  - intros [Hne _]%list_elem_of_filter. by apply Hne.
Qed.

(** X20: the flag does not wait for the layout.  When the target id names
    no node of the tree (a preview that outlived its leaf), the insert
    leaves the layout as it is and still marks the window snapped: it is
    then drawn neither floating nor, unless a leaf already held it, in a
    tile. *)
Theorem stale_target_hides_window (win : Z) (tid : NodeId) (side : Side)
        (g : IdSource) (st : AppState) (p : LayoutNode) :
  rootNode st = Some p -> tid ∉ ids p -> win ∉ occupants p ->
  rootNode (insertIntoLayoutApp win (Some tid) side g st) = rootNode st /\
  Forall (fun w => w_id w <> win)
         (floatingElements (insertIntoLayoutApp win (Some tid) side g st)) /\
  Forall (fun e => w_id (e_window e) <> win)
         (snappedElements (insertIntoLayoutApp win (Some tid) side g st)).
Proof.
  intros Hroot Hfresh Hnot.
  assert (Hsame : rootNode (insertIntoLayoutApp win (Some tid) side g st)
                  = rootNode st).
  { simpl. rewrite Hroot. unfold run.
    by rewrite (insert_unknown_target win side p tid g Hfresh). }
  split; [exact Hsame|]. split.
  - apply Forall_forall.
    intros w [(w0 & Hin & Hid & Hflag)%elem_of_setSnapped Hfl]%elem_of_List_filter.
    intros E. rewrite <- Hid, E in Hflag.
    rewrite Z.eqb_refl in Hflag. by rewrite Hflag in Hfl.
  - unfold snappedElements. rewrite Hsame, Hroot. simpl.
    pose proof (elements_windows
                  (setSnapped win true (windows st)) p 0 0
                  (viewportW st) (viewportH st)) as [_ Hsub].
    apply Forall_forall. intros e He E. apply Hnot.
    eapply elem_of_sublist; [|exact Hsub].
    apply elem_of_map. by exists e.
Qed.

Lemma stale_target_hides_window_witness :
  rootNode sampleState = Some sampleTwo /\ ("gone" ∉ ids sampleTwo) /\
  (9 ∉ occupants sampleTwo) /\
  Forall (fun w => w_id w <> 9)
         (floatingElements
            (insertIntoLayoutApp 9 (Some "gone") SideLeft g0 sampleState)).
Proof.
  assert (H1 : rootNode sampleState = Some sampleTwo) by reflexivity.
  assert (H2 : "gone" ∉ ids sampleTwo) by by_compute.
  assert (H3 : 9 ∉ occupants sampleTwo) by by_compute.
  repeat (split; [assumption|]).
  exact (proj1 (proj2 (stale_target_hides_window 9 "gone" SideLeft g0
                         sampleState sampleTwo H1 H2 H3))).
Defined.

Lemma clamp_nonneg pos limit : (0 <= clamp pos limit)%Q.
Proof. unfold clamp. apply Q.le_max_l. Qed.

Lemma clamp_le_limit pos limit :
  (0 <= limit)%Q -> (clamp pos limit <= limit)%Q.
Proof.
  intros H. unfold clamp. apply Q.max_lub; [done|apply Q.le_min_r].
Qed.

Lemma fits_inside (a : Q) (v w : Z) :
  w <= v -> (a <= inject_Z (v - w))%Q -> (a + inject_Z w <= inject_Z v)%Q.
Proof.
  intros _ H. unfold Z.sub in H. rewrite inject_Z_plus, inject_Z_opp in H. lra.
Qed.

(** X21: a drag cannot push the window out of the viewport.  After a
    [mousemove] the dragged window has non-negative coordinates and, when
    the viewport is at least as large as the window, ends inside it; the
    layout, the viewport and the drag are as before, and so is every other
    window. *)
Theorem drag_stays_in_viewport (cx cy : Z) (st st' : AppState)
        (d : Dragging) :
  dragging st = Some d -> onMove cx cy st = Returns st' ->
  (rootNode st', viewportW st', viewportH st', dragging st')
  = (rootNode st, viewportW st, viewportH st, dragging st) /\
  Forall (fun w' =>
            w_id w' = dragWindowId d ->
            (0 <= w_x w')%Q /\ (0 <= w_y w')%Q /\
            (w_width w' <= viewportW st ->
             (w_x w' + inject_Z (w_width w') <= inject_Z (viewportW st))%Q) /\
            (w_height w' <= viewportH st ->
             (w_y w' + inject_Z (w_height w') <= inject_Z (viewportH st))%Q))
         (windows st') /\
  Forall (fun w => w_id w <> dragWindowId d -> w ∈ windows st') (windows st).
Proof.
  intros Ed. unfold onMove. rewrite Ed.
  destruct (hitTestForPreview _ _ _ cx cy) as [|preview]; [discriminate|].
  intros [= <-]. simpl. split; [done|]. split.
  - apply Forall_forall. intros w' (w & -> & Hin)%elem_of_map.
    destruct (Z.eqb_spec (w_id w) (dragWindowId d)) as [E|E]; simpl;
      [|congruence].
    intros _. split; [apply clamp_nonneg|]. split; [apply clamp_nonneg|].
    split; intros Hfit; apply fits_inside; try done;
      apply clamp_le_limit; rewrite <- (Zle_Qle 0); lia.
  - apply Forall_forall. intros w Hin Hne. apply elem_of_map. exists w.
    split; [|done]. apply Z.eqb_neq in Hne. by rewrite Hne.
Qed.

Lemma drag_stays_in_viewport_witness :
  dragging sampleState = Some (mkDragging 9 5 5) /\
  onMove 2000 300 sampleState = Returns sampleMoved /\
  Forall (fun w => w_id w <> 9 -> w ∈ windows sampleMoved)
         (windows sampleState).
Proof.
  assert (H1 : dragging sampleState = Some (mkDragging 9 5 5)) by reflexivity.
  assert (H2 : onMove 2000 300 sampleState = Returns sampleMoved)
    by (vm_compute; reflexivity).
  split; [exact H1|]. split; [exact H2|].
  exact (proj2 (proj2 (drag_stays_in_viewport 2000 300 sampleState sampleMoved
                         (mkDragging 9 5 5) H1 H2))).
Defined.

Lemma color_in_palette n : nth (n mod length COLORS)%nat COLORS "" ∈ COLORS.
Proof.
  apply list_elem_of_In, nth_In, Nat.mod_upper_bound. discriminate.
Qed.

Lemma random_offset_range (r : Q) (v w : Z) :
  (0 <= r)%Q -> (r <= 1)%Q ->
  (0 <= r * Qmax 0 (inject_Z (v - w)))%Q /\
  (w <= v -> (r * Qmax 0 (inject_Z (v - w)) + inject_Z w <= inject_Z v)%Q).
Proof.
  intros H0 H1.
  assert (Hm : (0 <= Qmax 0 (inject_Z (v - w)))%Q) by apply Q.le_max_l.
  split; [by apply Qmult_le_0_compat|].
  intros Hfit. apply fits_inside; [done|].
  assert (Hq : (0 <= inject_Z (v - w))%Q) by (rewrite <- (Zle_Qle 0); lia).
  rewrite (Q.max_r _ _ Hq).
  rewrite <- (Qmult_1_l (inject_Z (v - w))) at 2.
  by apply Qmult_le_compat_r.
Qed.

(** X22: a new window is appended floating, with [Date.now()] as id and a
    colour of the palette whatever the number of windows; for random
    factors in [0,1] its corner is at non-negative coordinates and, when the
    viewport is at least 320 x 200, the window lies inside the viewport.
    The windows already there, the layout, the viewport, the drag and the
    preview are untouched. *)
Theorem createWindow_effect (now : Z) (rx ry : Q) (st : AppState) :
  (0 <= rx)%Q -> (rx <= 1)%Q -> (0 <= ry)%Q -> (ry <= 1)%Q ->
  exists w,
    windows (createWindow now rx ry st) = windows st ++ [w] /\
    w_id w = now /\ w_isSnapped w = false /\ w_color w ∈ COLORS /\
    (w_width w, w_height w) = WINDOW_SIZE /\
    (0 <= w_x w)%Q /\ (0 <= w_y w)%Q /\
    (320 <= viewportW st ->
     (w_x w + inject_Z (w_width w) <= inject_Z (viewportW st))%Q) /\
    (200 <= viewportH st ->
     (w_y w + inject_Z (w_height w) <= inject_Z (viewportH st))%Q) /\
    (rootNode (createWindow now rx ry st), viewportW (createWindow now rx ry st),
     viewportH (createWindow now rx ry st), dragging (createWindow now rx ry st),
     snapPreview (createWindow now rx ry st))
    = (rootNode st, viewportW st, viewportH st, dragging st, snapPreview st).
Proof.
  intros Hx0 Hx1 Hy0 Hy1.
  destruct (random_offset_range rx (viewportW st) 320 Hx0 Hx1) as [Hxa Hxb].
  destruct (random_offset_range ry (viewportH st) 200 Hy0 Hy1) as [Hya Hyb].
  eexists. split; [reflexivity|]. simpl.
  repeat (split; [done|]). split; [apply color_in_palette|].
  repeat (split; [done|]). done.
Qed.

Lemma createWindow_effect_witness :
  (0 <= 1 # 2)%Q /\ (1 # 2 <= 1)%Q /\
  exists w,
    windows (createWindow 7 (1 # 2) (1 # 2) (initialState 800 600)) = [] ++ [w] /\
    w_id w = 7.
Proof.
  assert (H0 : (0 <= 1 # 2)%Q) by discriminate.
  assert (H1 : (1 # 2 <= 1)%Q) by discriminate.
  split; [exact H0|]. split; [exact H1|].
  destruct (createWindow_effect 7 (1 # 2) (1 # 2) (initialState 800 600)
              H0 H1 H0 H1) as (w & Hw & Hid & _).
  exists w. split; assumption.
Defined.

Lemma occupants_absent w root :
  w ∉ occupantsOf root -> Some w ∉ leavesOf root.
Proof.
  unfold occupantsOf. intros Hno Hin. apply Hno.
  apply list_elem_of_omap. by exists (Some w).
Qed.

(** X23: creating a window and closing it again gives back the state,
    provided the id was not in use, neither by a window nor by a leaf. *)
Theorem create_then_delete (now : Z) (rx ry : Q) (st : AppState) :
  now ∉ map w_id (windows st) -> now ∉ occupantsOf (rootNode st) ->
  deleteWindow now (createWindow now rx ry st) = st.
Proof.
  intros Hw Ho. destruct st as [ws root vw vh dr pv]. simpl in *.
  unfold deleteWindow, removeWindowFromLayoutApp, createWindow. simpl.
  rewrite filter_setSnapped. f_equal.
  - rewrite List.filter_app. simpl. rewrite Z.eqb_refl. simpl.
    rewrite app_nil_r. clear -Hw.
    induction ws as [|a ws IH]; simpl in *; [done|].
    apply not_elem_of_cons in Hw as [Hne Hw].
    assert (E : (w_id a =? now) = false) by (apply Z.eqb_neq; congruence).
    rewrite E. simpl. f_equal. by apply IH.
  - unfold removeWindowFromLayout. destruct root as [t|]; simpl; [|done].
    apply remove_node_absent. by apply (occupants_absent now (Some t)).
Qed.

Lemma create_then_delete_witness :
  (9 ∉ map w_id (windows (initialState 800 600))) /\
  (9 ∉ occupantsOf (rootNode (initialState 800 600))) /\
  deleteWindow 9 (createWindow 9 0 0 (initialState 800 600))
  = initialState 800 600.
Proof.
  assert (H1 : 9 ∉ map w_id (windows (initialState 800 600)))
    by apply not_elem_of_nil.
  assert (H2 : 9 ∉ occupantsOf (rootNode (initialState 800 600)))
    by apply not_elem_of_nil.
  split; [exact H1|]. split; [exact H2|].
  exact (create_then_delete 9 0 0 (initialState 800 600) H1 H2).
Defined.

(** X24: releasing the mouse over a pending preview tiles the dragged
    window.  In a consistent state with a drag and a preview, and with
    fresh ids from [makeId], after [mouseup] the layout holds the dragged
    window exactly once beside the occupants it had, every window with that
    id is flagged snapped, and drag and preview are cleared. *)
Theorem mouseup_tiles_window (g : IdSource) (st : AppState)
        (d : Dragging) (p : SnapPreview) :
  Consistent st -> dragging st = Some d -> snapPreview st = Some p ->
  occupantsOf (rootNode (onUp g st))
    ≡ₚ dragWindowId d :: occupantsOf (rootNode st) /\
  Forall (fun w => w_id w = dragWindowId d -> w_isSnapped w = true)
         (windows (onUp g st)) /\
  dragging (onUp g st) = None /\ snapPreview (onUp g st) = None.
Proof.
  intros [Hw Hn Ho Hfl Hown Hd Hp] Ed Ep. unfold onUp. rewrite Ed, Ep. simpl.
  destruct (Hp p Ep) as [_ Htgt].
  split; [|split; [|done]].
  - destruct (insertIntoLayout_effect (dragWindowId d) (pside p)
                (targetNodeId p) (rootNode st) g Hn)
      as [[_ (tid & E & Hno)]|[Hocc _]]; [|exact Hocc].
    by destruct (Hno (Htgt tid E)).
  - apply Forall_forall.
    intros w' (w & Hin & Hid & Hflag)%elem_of_setSnapped E.
    rewrite Hid in E. apply Z.eqb_eq in E. by rewrite E in Hflag.
Qed.

Lemma sampleState_consistent : Consistent sampleState.
Proof.
  split; simpl.
  - by_compute.
  - by_compute.
  - by_compute.
  - intros w Hw. unfold sampleWindows in Hw. simpl in Hw.
    repeat (apply elem_of_cons in Hw as [->|Hw]);
      [| |  |by apply not_elem_of_nil in Hw]; simpl.
    + split; [intros _; by_compute|done].
    + split; [intros _; by_compute|done].
    + split; [discriminate|]. intros H. exfalso. revert H. by_compute.
  - intros v Hv. unfold occupantsOf in Hv. simpl in Hv.
    repeat (apply elem_of_cons in Hv as [->|Hv]);
      [by_compute|by_compute|by apply not_elem_of_nil in Hv].
  - intros d [= <-].
    exists (mkWindow 9 "Node 3" "#45B7D1" 700 10 320 200 false).
    split; [|split; reflexivity].
    do 2 (apply elem_of_cons; right). apply elem_of_cons. by left.
  - discriminate.
Qed.

Lemma mouseup_tiles_window_witness :
  Consistent sampleMoved /\
  dragging sampleMoved = Some (mkDragging 9 5 5) /\
  snapPreview sampleMoved
    = Some (mkPreview 400 0 400 600 None SideRight) /\
  occupantsOf (rootNode (onUp g0 sampleMoved))
    ≡ₚ 9 :: occupantsOf (rootNode sampleMoved).
Proof.
  assert (H1 : Consistent sampleMoved).
  { apply (move_consistent 2000 300 sampleState);
      [vm_compute; reflexivity|apply sampleState_consistent]. }
  assert (H2 : dragging sampleMoved = Some (mkDragging 9 5 5))
    by reflexivity.
  assert (H3 : snapPreview sampleMoved
               = Some (mkPreview 400 0 400 600 None SideRight))
    by reflexivity.
  repeat (split; [assumption|]).
  exact (proj1 (mouseup_tiles_window g0 sampleMoved _ _ H1 H2 H3)).
Defined.

(** ** Where a drop lands *)


Lemma plug_comp c d n : plug (ctxComp c d) n = plug c (plug d n).
Proof. induction c; simpl; by rewrite ?IHc. Qed.

Lemma holeRect_comp c d x y w h :
  holeRect (ctxComp c d) x y w h
  = holeRect d (bx (holeRect c x y w h)) (by_ (holeRect c x y w h))
      (bwidth (holeRect c x y w h)) (bheight (holeRect c x y w h)).
Proof.
  revert x y w h. induction c as [|i o r c IH s|i o r f c IH];
    intros x y w h; simpl; [done| |]; destruct o; apply IH.
Qed.




Lemma computeBounds_plug_in c d n x y w h m :
  NoDup (ids (plug c (plug d n))) ->
  computeBounds_node (plug c (plug d n)) x y w h m !! node_id n
  = Some (holeRect (ctxComp c d) x y w h).
Proof. rewrite <- plug_comp. apply computeBounds_plug. Qed.

(** The two halves of the hole after a drop: the new leaf takes the half on
    the drop side, the old node the other half. *)
Lemma droppedOn_bounds win side c n g x y w h m :
  NoDup (ids (plug c (droppedOn win side n g).1)) ->
  computeBounds_node (plug c (droppedOn win side n g).1) x y w h m
    !! (makeId "leaf" g).1
  = Some (specPreviewRect (holeRect c x y w h) side) /\
  computeBounds_node (plug c (droppedOn win side n g).1) x y w h m
    !! node_id n
  = Some (specPreviewRect (holeRect c x y w h) (oppositeSide side)).
Proof.
  set (wid := (makeId "leaf" g).1).
  set (sid := (makeId "split" (makeId "leaf" g).2).1).
  set (new := LayoutLeaf wid (Some win)).
  intros Hnd. destruct side; cbn [droppedOn makeId fst] in *;
    fold wid sid new in Hnd |- *; split.
  - etrans; [exact (computeBounds_plug_in c
                      (CFirst sid Vertical (1 # 2) CHole n) new x y w h m Hnd)|].
    rewrite holeRect_comp. simpl. by rewrite floorMul_half.
  - etrans; [exact (computeBounds_plug_in c
                      (CSecond sid Vertical (1 # 2) new CHole) n x y w h m Hnd)|].
    rewrite holeRect_comp. simpl. by rewrite floorMul_half.
  - etrans; [exact (computeBounds_plug_in c
                      (CSecond sid Vertical (1 # 2) n CHole) new x y w h m Hnd)|].
    rewrite holeRect_comp. simpl. by rewrite floorMul_half.
  - etrans; [exact (computeBounds_plug_in c
                      (CFirst sid Vertical (1 # 2) CHole new) n x y w h m Hnd)|].
    rewrite holeRect_comp. simpl. by rewrite floorMul_half.
  - etrans; [exact (computeBounds_plug_in c
                      (CFirst sid Horizontal (1 # 2) CHole n) new x y w h m Hnd)|].
    rewrite holeRect_comp. simpl. by rewrite floorMul_half.
  - etrans; [exact (computeBounds_plug_in c
                      (CSecond sid Horizontal (1 # 2) new CHole) n x y w h m Hnd)|].
    rewrite holeRect_comp. simpl. by rewrite floorMul_half.
  - etrans; [exact (computeBounds_plug_in c
                      (CSecond sid Horizontal (1 # 2) n CHole) new x y w h m Hnd)|].
    rewrite holeRect_comp. simpl. by rewrite floorMul_half.
  - etrans; [exact (computeBounds_plug_in c
                      (CFirst sid Horizontal (1 # 2) CHole new) n x y w h m Hnd)|].
    rewrite holeRect_comp. simpl. by rewrite floorMul_half.
Qed.

Lemma insert_on_node win side c n g :
  node_id n ∉ ctxIds c -> (forall i, n <> LayoutLeaf i None) ->
  run (insertIntoLayout win side (Some (node_id n)) (Some (plug c n))) g
  = Some (plug c (droppedOn win side n g).1).
Proof.
  intros Hfresh Hfull. unfold run, insertIntoLayout, replaceNode, gbind.
  rewrite (replaceNode_node_plug win side c n (node_id n) g Hfresh).
  assert (E : replaceNode_node win side n (node_id n) g
              = (Some (droppedOn win side n g).1, (droppedOn win side n g).2)).
  { destruct n as [i [a|]|i o r f s]; cbn [replaceNode_node node_id];
      rewrite ?String.eqb_refl; [| by destruct (Hfull i) |];
      unfold gbind; rewrite wrapWithWindow_droppedOn;
      by destruct (droppedOn _ _ _ _). }
  by rewrite E.
Qed.

Lemma plug_target_unique c n :
  NoDup (ids (plug c n)) -> node_id n ∉ ctxIds c.
Proof.
  rewrite ids_plug. intros (_ & Hdisj & _)%NoDup_app Hin.
  by apply (Hdisj _ Hin), node_id_in_ids.
Qed.

(** X25: a window dropped on an occupied leaf or on a split lands in the
    half of that node's rectangle named by the side, floor for the
    left/top half and remainder for the right/bottom one, and the node
    dropped on keeps the other half (distinct ids, fresh draws). *)
Theorem drop_lands_in_half (win : Z) (side : Side) (c : Ctx) (n : LayoutNode)
        (g : IdSource) (x y w h : Z) (m : gmap NodeId Bounds) :
  (forall i, n <> LayoutLeaf i None) ->
  NoDup (nextIds (Some (plug c n)) g ++ ids (plug c n)) ->
  computeBounds (Some (plug c n)) x y w h m !! node_id n
  = Some (holeRect c x y w h) /\
  computeBounds
    (run (insertIntoLayout win side (Some (node_id n)) (Some (plug c n))) g)
    x y w h m !! (makeId "leaf" g).1
  = Some (specPreviewRect (holeRect c x y w h) side) /\
  computeBounds
    (run (insertIntoLayout win side (Some (node_id n)) (Some (plug c n))) g)
    x y w h m !! node_id n
  = Some (specPreviewRect (holeRect c x y w h) (oppositeSide side)).
Proof.
  intros Hfull Hnd. pose proof Hnd as Hold.
  apply NoDup_app in Hold as (_ & _ & Hold).
  pose proof (plug_target_unique c n Hold) as Hfresh.
  split; [by apply computeBounds_plug|].
  rewrite (insert_on_node win side c n g Hfresh Hfull). simpl.
  apply droppedOn_bounds.
  rewrite ids_plug, droppedOn_ids.
  eapply NoDup_Permutation_proper; [|exact Hnd].
  rewrite ids_plug. solve_Permutation.
Qed.

Lemma drop_lands_in_half_witness :
  (forall i, LayoutLeaf "b" (Some 2) <> LayoutLeaf i None) /\
  NoDup (nextIds (Some sampleTwo) g0 ++ ids sampleTwo) /\
  computeBounds
    (run (insertIntoLayout 9 SideBottom (Some "b") (Some sampleTwo)) g0)
    0 0 801 601 ∅ !! "leaf_0"
  = Some (mkBounds 400 300 401 301).
Proof.
  assert (H1 : forall i, LayoutLeaf "b" (Some 2) <> LayoutLeaf i None)
    by discriminate.
  assert (H2 : NoDup (nextIds (Some sampleTwo) g0 ++ ids sampleTwo))
    by by_compute.
  split; [exact H1|]. split; [exact H2|].
  exact (proj1 (proj2 (drop_lands_in_half 9 SideBottom
                         (CSecond "s" Vertical (1 # 2)
                            (LayoutLeaf "a" (Some 1)) CHole)
                         (LayoutLeaf "b" (Some 2)) g0 0 0 801 601 ∅ H1 H2))).
Defined.

Lemma computeBounds_fill c tid a b x y w h m :
  computeBounds_node (plug c (LayoutLeaf tid a)) x y w h m
  = computeBounds_node (plug c (LayoutLeaf tid b)) x y w h m.
Proof.
  revert x y w h m. induction c as [|i o r c IH s|i o r f c IH];
    intros x y w h m; simpl; [done| |]; destruct o; by rewrite IH.
Qed.

(** X26: a window dropped into an unoccupied pane takes the pane as it is:
    the leaf now holds the window, and [computeBounds] gives every node the
    rectangle it had. *)
Theorem drop_into_empty_pane (win : Z) (side : Side) (c : Ctx) (tid : NodeId)
        (g : IdSource) (x y w h : Z) (m : gmap NodeId Bounds) :
  tid ∉ ctxIds c ->
  run (insertIntoLayout win side (Some tid)
         (Some (plug c (LayoutLeaf tid None)))) g
  = Some (plug c (LayoutLeaf tid (Some win))) /\
  computeBounds
    (run (insertIntoLayout win side (Some tid)
            (Some (plug c (LayoutLeaf tid None)))) g) x y w h m
  = computeBounds (Some (plug c (LayoutLeaf tid None))) x y w h m.
Proof.
  intros Hfresh.
  assert (E : run (insertIntoLayout win side (Some tid)
                     (Some (plug c (LayoutLeaf tid None)))) g
              = Some (plug c (LayoutLeaf tid (Some win)))).
  { unfold run, insertIntoLayout, replaceNode, gbind.
    rewrite (replaceNode_node_plug win side c _ tid g Hfresh).
    cbn [replaceNode_node node_id]. by rewrite String.eqb_refl. }
  split; [exact E|]. rewrite E. simpl. apply computeBounds_fill.
Qed.

Lemma drop_into_empty_pane_witness :
  ("leaf_0" ∉ ctxIds (CSecond "split_2" Vertical (1 # 2)
                        (LayoutLeaf "leaf_1" (Some 1)) CHole)) /\
  run (insertIntoLayout 2 SideTop (Some "leaf_0") afterFirstInsert) g0
  = Some (LayoutSplit "split_2" Vertical (1 # 2)
            (LayoutLeaf "leaf_1" (Some 1)) (LayoutLeaf "leaf_0" (Some 2))).
Proof.
  assert (H : "leaf_0" ∉ ctxIds (CSecond "split_2" Vertical (1 # 2)
                                   (LayoutLeaf "leaf_1" (Some 1)) CHole))
    by by_compute.
  split; [exact H|].
  exact (proj1 (drop_into_empty_pane 2 SideTop _ "leaf_0" g0 0 0 0 0 ∅ H)).
Defined.

(** X27: a window snapped to a viewport edge (target null) gets the half of
    the outer rectangle on that side, and what was there before, the whole
    former tree or, on the first insert, the placeholder leaf, gets the
    other half (distinct ids, fresh draws). *)
Theorem edge_drop_takes_half (win : Z) (side : Side)
        (root : option LayoutNode) (g : IdSource) (x y w h : Z)
        (m : gmap NodeId Bounds) :
  NoDup (nextIds root g ++ idsOf root) ->
  exists n i j,
    run (insertIntoLayout win side None root) g = Some n /\
    inTree (LayoutLeaf i (Some win)) n /\
    computeBounds (Some n) x y w h m !! i
    = Some (specPreviewRect (mkBounds x y w h) side) /\
    match root with
    | Some p => j = node_id p
    | None => inTree (LayoutLeaf j None) n
    end /\
    computeBounds (Some n) x y w h m !! j
    = Some (specPreviewRect (mkBounds x y w h) (oppositeSide side)).
Proof.
  intros Hnd. destruct root as [p|].
  - exists (droppedOn win side p g).1, (makeId "leaf" g).1, (node_id p).
    assert (Hnew : NoDup (ids (plug CHole (droppedOn win side p g).1))).
    { cbn [plug]. rewrite droppedOn_ids. exact Hnd. }
    destruct (droppedOn_bounds win side CHole p g x y w h m Hnew) as [Hi Hj].
    split.
    { unfold run, insertIntoLayout, gbind. rewrite wrapWithWindow_droppedOn.
      by destruct (droppedOn win side p g). }
    split; [destruct side; simpl; tauto|]. by split.
  - simpl in Hnd. rewrite ?app_nil_r in Hnd.
    set (eid := "leaf" +:+ "_" +:+ draw g (tick g)) in *.
    set (wid := "leaf" +:+ "_" +:+ draw g (S (tick g))) in *.
    set (sid := "split" +:+ "_" +:+ draw g (S (S (tick g)))) in *.
    set (new := LayoutLeaf wid (Some win)).
    set (empty := LayoutLeaf eid None).
    assert (H1 : NoDup [sid; wid; eid])
      by (eapply NoDup_Permutation_proper; [|exact Hnd]; solve_Permutation).
    assert (H2 : NoDup [sid; eid; wid])
      by (eapply NoDup_Permutation_proper; [|exact Hnd]; solve_Permutation).
    destruct side.
    + exists (LayoutSplit sid Vertical (1 # 2) new empty), wid, eid.
      split; [done|]. split; [simpl; tauto|]. split; [|split; [simpl; tauto|]].
      * etrans; [exact (computeBounds_plug_in CHole
                          (CFirst sid Vertical (1 # 2) CHole empty) new
                          x y w h m H1)|].
        simpl. by rewrite floorMul_half.
      * etrans; [exact (computeBounds_plug_in CHole
                          (CSecond sid Vertical (1 # 2) new CHole) empty
                          x y w h m H1)|].
        simpl. by rewrite floorMul_half.
    + exists (LayoutSplit sid Vertical (1 # 2) empty new), wid, eid.
      split; [done|]. split; [simpl; tauto|]. split; [|split; [simpl; tauto|]].
      * etrans; [exact (computeBounds_plug_in CHole
                          (CSecond sid Vertical (1 # 2) empty CHole) new
                          x y w h m H2)|].
        simpl. by rewrite floorMul_half.
      * etrans; [exact (computeBounds_plug_in CHole
                          (CFirst sid Vertical (1 # 2) CHole new) empty
                          x y w h m H2)|].
        simpl. by rewrite floorMul_half.
    + exists (LayoutSplit sid Horizontal (1 # 2) new empty), wid, eid.
      split; [done|]. split; [simpl; tauto|]. split; [|split; [simpl; tauto|]].
      * etrans; [exact (computeBounds_plug_in CHole
                          (CFirst sid Horizontal (1 # 2) CHole empty) new
                          x y w h m H1)|].
        simpl. by rewrite floorMul_half.
      * etrans; [exact (computeBounds_plug_in CHole
                          (CSecond sid Horizontal (1 # 2) new CHole) empty
                          x y w h m H1)|].
        simpl. by rewrite floorMul_half.
    + exists (LayoutSplit sid Horizontal (1 # 2) empty new), wid, eid.
      split; [done|]. split; [simpl; tauto|]. split; [|split; [simpl; tauto|]].
      * etrans; [exact (computeBounds_plug_in CHole
                          (CSecond sid Horizontal (1 # 2) empty CHole) new
                          x y w h m H2)|].
        simpl. by rewrite floorMul_half.
      * etrans; [exact (computeBounds_plug_in CHole
                          (CFirst sid Horizontal (1 # 2) CHole new) empty
                          x y w h m H2)|].
        simpl. by rewrite floorMul_half.
Qed.

Lemma edge_drop_takes_half_witness :
  NoDup (nextIds None g0 ++ idsOf None) /\
  exists n i,
    run (insertIntoLayout 1 SideLeft None None) g0 = Some n /\
    computeBounds (Some n) 0 0 801 600 ∅ !! i = Some (mkBounds 0 0 400 600).
Proof.
  assert (H : NoDup (nextIds None g0 ++ idsOf None)) by by_compute.
  split; [exact H|].
  destruct (edge_drop_takes_half 1 SideLeft None g0 0 0 801 600 ∅ H)
    as (n & i & j & Hn & _ & Hi & _).
  exists n, i. split; assumption.
Defined.

Lemma hit_preview_target t vw vh px py n p :
  findDeepestNodeAtPoint_node t 0 0 vw vh px py = Some n ->
  hitTestForPreview (Some t) vw vh px py = Returns (Some p) ->
  targetNodeId p = Some (node_id n).
Proof.
  intros E. unfold hitTestForPreview. simpl. rewrite E.
  destruct (computeBounds_node t 0 0 vw vh ∅ !! node_id n) as [b|];
    [|discriminate].
  repeat match goal with
         | |- context [if ?c then _ else _] => destruct c
         end; by intros [= <-].
Qed.

(** X28: on an occupied leaf of even width and height, the preview is where
    the window lands.  If the pointer hits the leaf and the resolver
    returns a preview, then after the drop on that preview [computeBounds]
    gives the new window's leaf exactly the preview rectangle (distinct
    ids, fresh draws). *)
Theorem preview_is_landing (win : Z) (c : Ctx) (tid : NodeId) (a : Z)
        (g : IdSource) (vw vh px py : Z) (p : SnapPreview) :
  NoDup (nextIds (Some (plug c (LayoutLeaf tid (Some a)))) g
         ++ ids (plug c (LayoutLeaf tid (Some a)))) ->
  findDeepestNodeAtPoint (Some (plug c (LayoutLeaf tid (Some a))))
    0 0 vw vh px py = Some (LayoutLeaf tid (Some a)) ->
  hitTestForPreview (Some (plug c (LayoutLeaf tid (Some a)))) vw vh px py
  = Returns (Some p) ->
  Z.even (bwidth (holeRect c 0 0 vw vh)) = true ->
  Z.even (bheight (holeRect c 0 0 vw vh)) = true ->
  computeBounds
    (run (insertIntoLayout win (pside p) (targetNodeId p)
            (Some (plug c (LayoutLeaf tid (Some a))))) g)
    0 0 vw vh ∅ !! (makeId "leaf" g).1
  = Some (previewRect p).
Proof.
  set (n := LayoutLeaf tid (Some a)). set (t := plug c n).
  intros Hnd Hfind Hp Hew Heh. simpl in Hfind.
  pose proof Hnd as Hold. apply NoDup_app in Hold as (_ & _ & Hold).
  pose proof (hitLeafBounds_find t 0 0 vw vh px py) as Hb.
  rewrite Hfind in Hb. destruct Hb as (b & Hb & _).
  assert (Eb : b = holeRect c 0 0 vw vh).
  { pose proof (computeBounds_hit t 0 0 vw vh ∅ px py n b Hold Hfind Hb) as H1.
    pose proof (computeBounds_plug c n 0 0 vw vh ∅ Hold) as H2.
    fold t in H2. rewrite H2 in H1. by injection H1. }
  subst b.
  assert (Hrect : previewRect p
                  = specPreviewRect (holeRect c 0 0 vw vh) (pside p)).
  { apply (preview_even_sizes (Some t) vw vh px py); try done.
    by exists t. }
  rewrite (hit_preview_target t vw vh px py n p Hfind Hp), Hrect.
  unfold t.
  rewrite (insert_on_node win (pside p) c n g);
    [|by apply plug_target_unique|discriminate].
  simpl. apply droppedOn_bounds.
  rewrite ids_plug, droppedOn_ids.
  eapply NoDup_Permutation_proper; [|exact Hnd].
  unfold t. rewrite (ids_plug c n). solve_Permutation.
Qed.

Lemma preview_is_landing_witness :
  NoDup (nextIds (Some sampleTwo) g0 ++ ids sampleTwo) /\
  findDeepestNodeAtPoint (Some sampleTwo) 0 0 800 600 790 300
  = Some (LayoutLeaf "b" (Some 2)) /\
  hitTestForPreview (Some sampleTwo) 800 600 790 300
  = Returns (Some (mkPreview 600 0 200 600 (Some "b") SideRight)) /\
  computeBounds
    (run (insertIntoLayout 9 SideRight (Some "b") (Some sampleTwo)) g0)
    0 0 800 600 ∅ !! "leaf_0"
  = Some (mkBounds 600 0 200 600).
Proof.
  assert (H1 : NoDup (nextIds (Some sampleTwo) g0 ++ ids sampleTwo))
    by by_compute.
  assert (H2 : findDeepestNodeAtPoint (Some sampleTwo) 0 0 800 600 790 300
               = Some (LayoutLeaf "b" (Some 2))) by reflexivity.
  assert (H3 : hitTestForPreview (Some sampleTwo) 800 600 790 300
               = Returns (Some (mkPreview 600 0 200 600 (Some "b") SideRight)))
    by reflexivity.
  repeat (split; [assumption|]).
  exact (preview_is_landing 9
           (CSecond "s" Vertical (1 # 2) (LayoutLeaf "a" (Some 1)) CHole)
           "b" 2 g0 800 600 790 300 _ H1 H2 H3 eq_refl eq_refl).
Defined.
